(** * Command-line parsing of PRRTE: [src/util/cmd_line.c]

    A shallow embedding of [endswith], [check_store] and
    [prte_cmd_line_parse], followed by the properties of the parser that the
    specification states.

    C strings are modelled as [string] (the terminating NUL is implicit, a
    NULL pointer is [None] of [option string]); [int] values are modelled as
    [Z], the cursor of the scanner never leaving the range of the argument
    vector by more than one; a NULL-terminated [char **] is a [list string]
    whose terminator sits at index [length].

    The option scanner [getopt_long], the quote-stripping copy of the
    argument vector and the help renderer are not part of [cmd_line.c]:
    the parser is modelled over an interface that provides them, and the
    properties hold for every implementation of it.  A reference
    implementation runs the parser on concrete command lines. *)

From Stdlib Require Import List String Ascii ZArith Bool Lia.
Import ListNotations.
Local Open Scope string_scope.
Local Open Scope Z_scope.

Set Implicit Arguments.

(** ** Outcome of running C code *)

(** [Undef] marks an execution the C standard leaves undefined (a read
    outside an array, a NULL pointer handed to a string function);
    [Timeout] marks a run of the scanning loop that did not finish within
    the fuel given to the model. *)
Inductive res (A : Type) : Type :=
| Ok (a : A)
| Undef
| Timeout.

Arguments Undef {A}.
Arguments Timeout {A}.

Definition bind {A B : Type} (m : res A) (k : A -> res B) : res B :=
  match m with
  | Ok a => k a
  | Undef => Undef
  | Timeout => Timeout
  end.

Notation "'do' x <- m ; k" := (bind m (fun x => k))
  (at level 10, x name, m at level 100, k at level 200).

(** ** Status codes *)

Inductive status : Type :=
| PRTE_SUCCESS
| PRTE_ERR_BAD_PARAM
| PRTE_ERR_SILENT.

Definition status_eqb (a b : status) : bool :=
  match a, b with
  | PRTE_SUCCESS, PRTE_SUCCESS => true
  | PRTE_ERR_BAD_PARAM, PRTE_ERR_BAD_PARAM => true
  | PRTE_ERR_SILENT, PRTE_ERR_SILENT => true
  | _, _ => false
  end.

(** ** Option descriptors ([struct option] of <getopt.h>) *)

Definition no_argument : Z := 0.
Definition required_argument : Z := 1.
Definition optional_argument : Z := 2.

(** Modelled from the spec: the arity constants of [cmd_line.h], which is
    not part of the sources at hand; the specification names the three
    arities none, required and optional, and the parser compares
    [has_arg] with [PRTE_ARG_NONE]. *)
Definition PRTE_ARG_NONE : Z := no_argument.

(** Modelled from the spec: the arity "required" of [cmd_line.h]. *)
Definition PRTE_ARG_REQD : Z := required_argument.

(** Modelled from the spec: the arity "optional" of [cmd_line.h]. *)
Definition PRTE_ARG_OPTIONAL : Z := optional_argument.

(** One entry of the long-option table.  The table itself is a
    [list option_t]; the all-zero sentinel that ends the C array is
    implicit at index [length].  [flag] is [None] for a NULL pointer and
    otherwise names the [int] cell the scanner writes into. *)
Record option_t : Type := {
  name : string;
  has_arg : Z;
  flag : option N;
  val : Z
}.

(** ** Result model *)

(** [prte_cli_item_t]: a key and its values, in the order stored.  A NULL
    [values] array and an empty one are the same list. *)
Record prte_cli_item_t : Type := {
  key : string;
  values : list string
}.

(** [prte_cli_result_t]: [tail] is [None] while the pointer is NULL. *)
Record prte_cli_result_t : Type := {
  instances : list prte_cli_item_t;
  tail : option (list string)
}.

(** The object as its constructor [ocon] leaves it. *)
Definition ocon : prte_cli_result_t :=
  {| instances := []; tail := None |}.

(** ** [endswith] *)

Definition endswith (str suffix : option string) : status :=
  match str, suffix with
  | Some str, Some suffix =>
      let lenstr := String.length str in
      let lensuffix := String.length suffix in
      if Nat.ltb lenstr lensuffix then PRTE_ERR_BAD_PARAM
      else if String.eqb (substring (lenstr - lensuffix) lensuffix str) suffix
           then PRTE_SUCCESS
           else PRTE_ERR_BAD_PARAM
  | _, _ => PRTE_ERR_BAD_PARAM
  end.

(** ** [check_store] *)

(** [pmix_argv_append_nosize] on the values of an item, skipped for a NULL
    argument. *)
Definition append_value (opt : prte_cli_item_t) (option : option string)
  : prte_cli_item_t :=
  match option with
  | Some v => {| key := key opt; values := values opt ++ [v] |}
  | None => opt
  end.

(** The [PRTE_LIST_FOREACH] scan of [check_store] together with the code
    after it: the first item whose key equals [name] receives the value and
    the function returns; when the scan finds none, a new item is appended
    to the list. *)
Fixpoint check_store_list (name : string) (option : option string)
  (l : list prte_cli_item_t) : list prte_cli_item_t :=
  match l with
  | [] => [append_value {| key := name; values := [] |} option]
  | opt :: rest =>
      if String.eqb (key opt) name
      then append_value opt option :: rest
      else opt :: check_store_list name option rest
  end.

Definition check_store (name : string) (option : option string)
  (results : prte_cli_result_t) : prte_cli_result_t :=
  {| instances := check_store_list name option (instances results);
     tail := tail results |}.

(** The type of a store callback, [prte_cmd_line_store_fn_t]. *)
Definition prte_cmd_line_store_fn_t : Type :=
  string -> option string -> prte_cli_result_t -> prte_cli_result_t.

(** ** Strings and characters *)

(** A [char] converted to [int], with [char] signed as on the platforms
    PRRTE is built for: codes above 127 come out negative. *)
Definition char_to_int (c : ascii) : Z :=
  let v := Z.of_N (N_of_ascii c) in
  if v <? 128 then v else v - 256.

(** [ptr += 2] on a C string.  The pointer stays inside the string (its
    terminator included) only when the string has two characters or more. *)
Definition skip2 (s : string) : res string :=
  match s with
  | String _ (String _ rest) => Ok rest
  | _ => Undef
  end.

(** [while ('-' == *ptr) ++ptr;] *)
Fixpoint strip_dashes (s : string) : string :=
  match s with
  | String c rest => if Ascii.eqb c "-" then strip_dashes rest else s
  | EmptyString => s
  end.

(** [s[0]], the terminator of an empty string being NUL. *)
Definition first_char (s : string) : ascii :=
  match s with
  | String c _ => c
  | EmptyString => zero
  end.

(** The literals that ask for help on a long option (lines 132-134). *)
Definition long_help_directive (optarg : string) : bool :=
  String.eqb optarg "--help" || String.eqb optarg "-help" ||
  String.eqb optarg "help" || String.eqb optarg "h" ||
  String.eqb optarg "-h".

(** The literals that ask for help on a short option (lines 313-314). *)
Definition short_help_directive (ptr : string) : bool :=
  String.eqb ptr "--help" || String.eqb ptr "-h" ||
  String.eqb ptr "help" || String.eqb ptr "h".

(** ** Argument vectors *)

(** [argv[i]]: [Ok None] is the NULL that terminates the vector; any index
    outside [0 .. length] is a read out of bounds. *)
Definition argv_at (argv : list string) (i : Z) : res (option string) :=
  if i <? 0 then Undef
  else match nth_error argv (Z.to_nat i) with
       | Some s => Ok (Some s)
       | None => if i =? Z.of_nat (List.length argv) then Ok None else Undef
       end.

(** [argv[i]] where the code dereferences the result. *)
Definition argv_str (argv : list string) (i : Z) : res string :=
  do p <- argv_at argv i;
  match p with
  | Some s => Ok s
  | None => Undef
  end.

Definition pmix_argv_count (argv : list string) : Z :=
  Z.of_nat (List.length argv).

(** [pmix_argv_copy(&argv[i])] for [0 <= i <= length]. *)
Definition pmix_argv_copy_from (argv : list string) (i : Z) : list string :=
  skipn (Z.to_nat i) argv.

(** ** The scanner and the other collaborators *)

(** The globals of getopt, with the scanner's private state [priv] next to
    them. *)
Record getopt_t (P : Type) : Type := {
  optind : Z;
  opterr : Z;
  optopt : Z;
  optarg : option string;
  priv : P
}.

Arguments optind {P} _.
Arguments opterr {P} _.
Arguments optopt {P} _.
Arguments optarg {P} _.
Arguments priv {P} _.

(** [optind = i;] *)
Definition with_optind {P : Type} (i : Z) (g : getopt_t P) : getopt_t P :=
  {| optind := i; opterr := opterr g; optopt := optopt g;
     optarg := optarg g; priv := priv g |}.

(** Lines 114-117: the globals as the parser resets them before its first
    call of the scanner; the scanner's private state is not touched. *)
Definition reset {P : Type} (g : getopt_t P) : getopt_t P :=
  {| optind := 0; opterr := 0; optopt := 0; optarg := None;
     priv := priv g |}.

(** What one call of [getopt_long] leaves behind: its return value, the
    index written through [longindex] (if it wrote one), the argument
    vector (which the scanner may reorder in place) and the globals. *)
Record getopt_ret (P : Type) : Type := {
  ret : Z;
  longindex : option Z;
  ret_argv : list string;
  ret_state : getopt_t P
}.

Arguments ret {P} _.
Arguments longindex {P} _.
Arguments ret_argv {P} _.
Arguments ret_state {P} _.

(** The collaborators of the parser that live outside [cmd_line.c]: the
    option scanner of the C library, the quote-stripping copy of the PMIx
    argv utilities, the help renderer of [show_help.c] and the strings that
    identify the tool. *)
Class Externals : Type := {
  scan_priv : Type;
  getopt_long :
    Z -> list string -> string -> list option_t -> getopt_t scan_priv ->
    getopt_ret scan_priv;
  pmix_argv_copy_strip : list string -> list string;
  prte_show_help_string :
    string -> string -> bool -> list (option string) -> option string;
  prte_tool_basename : string;
  PRTE_PROXY_VERSION_STRING : string;
  PRTE_PROXY_BUGREPORT : string
}.

(** ** Observable actions *)

(** What a run of the parser does to the outside, in program order: text
    written by [printf], calls of the store callback, and the assignment of
    [results->tail]. *)
Inductive event : Type :=
| Printf (s : string)
| Store (name : string) (optval : option string)
| AssignTail (t : list string).

(** ** [prte_cmd_line_parse] *)

Section Parser.

Context {E : Externals}.

(** The variables of [prte_cmd_line_parse] that change while it runs. *)
Record parser : Type := {
  argv : list string;
  scanner : getopt_t scan_priv;
  option_index : Z;
  results : prte_cli_result_t;
  trace : list event
}.

(** How one pass through the [switch] ends: [break], which goes round the
    loop again, or [return]. *)
Inductive flow : Type :=
| Break (st : parser)
| Return (rc : status) (st : parser).

Definition set_optind (i : Z) (st : parser) : parser :=
  {| argv := argv st;
     scanner := with_optind i (scanner st);
     option_index := option_index st;
     results := results st;
     trace := trace st |}.

Definition emit (evs : list event) (st : parser) : parser :=
  {| argv := argv st;
     scanner := scanner st;
     option_index := option_index st;
     results := results st;
     trace := (trace st ++ evs)%list |}.

Definition set_results (r : prte_cli_result_t) (st : parser) : parser :=
  {| argv := argv st;
     scanner := scanner st;
     option_index := option_index st;
     results := r;
     trace := trace st |}.

(** [str = prte_show_help_string(...); if (NULL != str) printf("%s", str);] *)
Definition print_help (file topic : string) (want_error_header : bool)
  (args : list (option string)) : list event :=
  match prte_show_help_string file topic want_error_header args with
  | Some str => [Printf str]
  | None => []
  end.

(** The common tail of every help and error exit: print what the renderer
    returns and [return PRTE_ERR_SILENT]. *)
Definition help_exit (file topic : string) (want_error_header : bool)
  (args : list (option string)) (st : parser) : flow :=
  Return PRTE_ERR_SILENT
    (emit (print_help file topic want_error_header args) st).

Variable shorts : string.
Variable myoptions : list option_t.
Variable mystore : prte_cmd_line_store_fn_t.
Variable helpfile : string.
Variable argc : Z.

(** [mystore(name, option, results)] *)
Definition call_store (name : string) (optval : option string) (st : parser)
  : parser :=
  emit [Store name optval] (set_results (mystore name optval (results st)) st).

(** [myoptions[option_index]], for an index that addresses an entry of the
    table.  At the index of the sentinel the name is NULL, which the code
    hands on to [strcmp], [strdup] or the help renderer; beyond it the read
    is out of bounds. *)
Definition option_at (i : Z) : res option_t :=
  if i <? 0 then Undef
  else match nth_error myoptions (Z.to_nat i) with
       | Some o => Ok o
       | None => Undef
       end.

Definition is_long_help (a : option string) : bool :=
  match a with
  | Some s => long_help_directive s
  | None => false
  end.

Definition is_short_help (a : option string) : bool :=
  match a with
  | Some s => short_help_directive s
  | None => false
  end.

(** [case 0:] a long option that has no short code of its own. *)
Definition case_long (st : parser) : res flow :=
  do o <- option_at (option_index st);
  if is_long_help (optarg (scanner st))
  then Ok (help_exit helpfile (name o) false [] st)
  else if status_eqb (endswith (Some (name o)) (Some "mca")) PRTE_SUCCESS
  then
    do a <- argv_str (argv st) (optind (scanner st) - 1);
    do b <- argv_str (argv st) (optind (scanner st));
    let str := (a ++ "=" ++ b)%string in
    Ok (Break (set_optind (optind (scanner st) + 1)
                 (call_store (name o) (Some str) st)))
  else Ok (Break (call_store (name o) (optarg (scanner st)) st)).

(** [case 'h':] *)
Definition case_h (st : parser) : res flow :=
  match optarg (scanner st) with
  | None =>
      do next <- argv_at (argv st) (optind (scanner st));
      match next with
      | Some tok =>
          let ptr := strip_dashes tok in
          if String.eqb ptr "version" || String.eqb ptr "V"
          then Ok (help_exit "help-cli.txt" "version" false [] st)
          else if String.eqb ptr "verbose" || String.eqb ptr "v"
          then Ok (help_exit "help-cli.txt" "verbose" false [] st)
          else if String.eqb ptr "help" || String.eqb ptr "h"
          then Ok (help_exit "help-cli.txt" "help" false
                     (repeat (Some prte_tool_basename) 8) st)
          else if existsb (fun o => String.eqb ptr (name o)) myoptions
          then Ok (help_exit helpfile ptr false [] st)
          else Ok (help_exit "help-cli.txt" "unknown-option" true
                     [Some ptr; Some prte_tool_basename] st)
      | None =>
          Ok (help_exit helpfile "usage" false
                [Some prte_tool_basename; Some "PRRTE";
                 Some PRTE_PROXY_VERSION_STRING; Some prte_tool_basename;
                 Some PRTE_PROXY_BUGREPORT] st)
      end
  | Some a =>
      Ok (help_exit "help-cli.txt" "unrecognized-option" true
            [Some prte_tool_basename; Some a] st)
  end.

(** [case 'V':] *)
Definition case_V (st : parser) : res flow :=
  Ok (help_exit helpfile "version" false
        [Some prte_tool_basename; Some "PRRTE";
         Some PRTE_PROXY_VERSION_STRING; Some PRTE_PROXY_BUGREPORT] st).

(** The outer [for] of the default case: the text of [shorts] that follows
    the first character equal to [opt], or [None] when no character is. *)
Fixpoint find_short (opt : Z) (s : string) : option string :=
  match s with
  | EmptyString => None
  | String c rest =>
      if opt =? char_to_int c then Some rest else find_short opt rest
  end.

(** The inner [for]: the first entry of the table whose [val] is the
    code. *)
Fixpoint find_val (ascii : Z) (l : list option_t) : option option_t :=
  match l with
  | [] => None
  | o :: rest => if ascii =? val o then Some o else find_val ascii rest
  end.

(** Lines 294-306: the argument of a short option, from what follows its
    character in [shorts]. *)
Definition short_argument (after : string) (st : parser)
  : res (option string) :=
  match after with
  | String ":" (String ":" _) =>
      do tok <- argv_str (argv st) (optind (scanner st) - 1);
      do ptr <- skip2 tok;
      Ok (Some ptr)
  | String ":" _ => Ok (optarg (scanner st))
  | _ => Ok None
  end.

(** [default:] *)
Definition case_default (argind opt : Z) (st : parser) : res flow :=
  do not_an_option <-
    (if argind =? 0 then Ok false
     else do tok <- argv_str (argv st) argind;
          Ok (negb (Ascii.eqb (first_char tok) "-")));
  if (not_an_option : bool) then Ok (Break st)
  else
    match find_short opt shorts with
    | Some after =>
        do ptr <- short_argument after st;
        match find_val opt myoptions with
        | Some o =>
            if is_short_help ptr
            then Ok (help_exit helpfile (name o) true [] st)
            else
              let ptr := if has_arg o =? PRTE_ARG_NONE then None else ptr in
              Ok (Break (call_store (name o) ptr st))
        | None =>
            do tok <- argv_at (argv st) (optind (scanner st) - 1);
            Ok (help_exit "help-cli.txt" "short-no-long" true
                  [Some prte_tool_basename; tok] st)
        end
    | None =>
        do tok <- argv_at (argv st) (optind (scanner st) - 1);
        Ok (help_exit "help-cli.txt" "unregistered-option" true
              [Some prte_tool_basename; tok; Some prte_tool_basename] st)
    end.

(** [switch (opt)] *)
Definition dispatch (argind opt : Z) (st : parser) : res flow :=
  if opt =? 0 then case_long st
  else if opt =? char_to_int "h" then case_h st
  else if opt =? char_to_int "V" then case_V st
  else case_default argind opt st.

(** The state after [getopt_long] has returned. *)
Definition scanned (r : getopt_ret scan_priv) (st : parser) : parser :=
  {| argv := ret_argv r;
     scanner := ret_state r;
     option_index := match longindex r with
                     | Some i => i
                     | None => option_index st
                     end;
     results := results st;
     trace := trace st |}.

(** Lines 359-363, after the loop. *)
Definition finish (st : parser) : res (status * parser) :=
  if optind (scanner st) <? argc
  then
    if optind (scanner st) <? 0 then Undef
    else
      let t := pmix_argv_copy_from (argv st) (optind (scanner st)) in
      Ok (PRTE_SUCCESS,
          emit [AssignTail t]
            (set_results {| instances := instances (results st);
                            tail := Some t |} st))
  else Ok (PRTE_SUCCESS, st).

(** [while (1) { ... }] and what follows it; one unit of fuel per call of
    the scanner. *)
Fixpoint parse_loop (fuel : nat) (st : parser) : res (status * parser) :=
  match fuel with
  | O => Timeout
  | S fuel =>
      let argind := optind (scanner st) in
      let r := getopt_long argc (argv st) shorts myoptions (scanner st) in
      let st := scanned r st in
      if ret r =? -1 then finish st
      else
        do f <- dispatch argind (ret r) st;
        match f with
        | Break st => parse_loop fuel st
        | Return rc st => Ok (rc, st)
        end
  end.

End Parser.

(** The whole function.  [g] is the state of the scanner's globals when the
    function is entered; [storefn] is [None] for a NULL callback. *)
Definition prte_cmd_line_parse {E : Externals} (fuel : nat)
  (pargv : list string) (shorts : string) (myoptions : list option_t)
  (storefn : option prte_cmd_line_store_fn_t) (results : prte_cli_result_t)
  (helpfile : string) (g : getopt_t scan_priv) : res (status * parser) :=
  let argv := pmix_argv_copy_strip pargv in
  let argc := pmix_argv_count argv in
  let mystore := match storefn with
                 | None => check_store
                 | Some f => f
                 end in
  parse_loop shorts myoptions mystore helpfile argc fuel
    {| argv := argv;
       scanner := reset g;
       option_index := 0;
       results := results;
       trace := [] |}.

(** ** A reference scanner *)

(** Modelled from the spec: the option-scanning primitive, which belongs to
    the C library and not to these sources.  The model follows the contract
    the specification gives for it (one matched option per call, an
    implicit cursor, the argument of the match in an implicit slot) as the
    GNU C library implements [getopt_long]: non-options are permuted to the
    end, [--] ends the options, long names may be abbreviated when that is
    unambiguous, [--name=value] attaches an argument, short options may be
    clustered, and no message is printed since the parser clears [opterr].
    The [-W] extension and [POSIXLY_CORRECT] are left out. *)
Module Glibc.

Inductive ordering_t : Type := REQUIRE_ORDER | PERMUTE | RETURN_IN_ORDER.

Record data : Type := {
  nextchar : option string;
  first_nonopt : Z;
  last_nonopt : Z;
  ordering : ordering_t;
  initialized : bool
}.

Definition fresh : data :=
  {| nextchar := None; first_nonopt := 0; last_nonopt := 0;
     ordering := PERMUTE; initialized := false |}.

Definition tok (argv : list string) (i : Z) : string :=
  nth (Z.to_nat i) argv EmptyString.

(** [NONOPTION_P] *)
Definition nonoption_p (argv : list string) (i : Z) : bool :=
  match tok argv i with
  | String "-" (String _ _) => false
  | _ => true
  end.

(** [while (optind < argc && NONOPTION_P) optind++;] *)
Fixpoint skip_nonoptions (n : nat) (argc : Z) (argv : list string) (i : Z)
  : Z :=
  match n with
  | O => i
  | S n =>
      if (i <? argc) && nonoption_p argv i
      then skip_nonoptions n argc argv (i + 1)
      else i
  end.

(** [exchange]: the options in [last .. optind) move in front of the
    non-options in [first .. last). *)
Definition exchange (argv : list string) (first last optind : Z)
  : list string :=
  let f := Z.to_nat first in
  let l := Z.to_nat last in
  let o := Z.to_nat optind in
  (firstn f argv ++ firstn (o - l) (skipn l argv)
     ++ firstn (l - f) (skipn f argv) ++ skipn o argv)%list.

(** [strchr(optstring, c)] *)
Fixpoint strchr (s : string) (c : ascii) : option string :=
  match s with
  | EmptyString => None
  | String d rest => if Ascii.eqb d c then Some s else strchr rest c
  end.

(** The name of a long option up to [=], and the text after [=]. *)
Fixpoint split_eq (s : string) : string * option string :=
  match s with
  | EmptyString => (EmptyString, None)
  | String c rest =>
      if Ascii.eqb c "=" then (EmptyString, Some rest)
      else let (n, v) := split_eq rest in (String c n, v)
  end.

Fixpoint find_exact (nm : string) (l : list option_t) (i : Z)
  : option (option_t * Z) :=
  match l with
  | [] => None
  | p :: rest =>
      if String.eqb (name p) nm then Some (p, i)
      else find_exact nm rest (i + 1)
  end.

Definition same_action (p q : option_t) : bool :=
  (has_arg p =? has_arg q) &&
  match flag p, flag q with
  | None, None => true
  | Some a, Some b => N.eqb a b
  | _, _ => false
  end &&
  (val p =? val q).

(** The search for an abbreviation: the first entry that [nm] is a prefix
    of, and whether a later such entry acts differently. *)
Fixpoint find_abbrev (nm : string) (l : list option_t) (i : Z)
  (found : option (option_t * Z)) (ambig : bool)
  : option (option_t * Z) * bool :=
  match l with
  | [] => (found, ambig)
  | p :: rest =>
      if prefix nm (name p)
      then match found with
           | None => find_abbrev nm rest (i + 1) (Some (p, i)) ambig
           | Some (q, _) =>
               find_abbrev nm rest (i + 1) found
                 (ambig || negb (same_action q p))
           end
      else find_abbrev nm rest (i + 1) found ambig
  end.

Definition question (optstring : string) : Z :=
  match optstring with
  | String ":" _ => char_to_int ":"
  | _ => char_to_int "?"
  end.

Definition mk (i : Z) (oo : Z) (oa : option string) (d : data)
  : getopt_t data :=
  {| optind := i; opterr := 0; optopt := oo; optarg := oa; priv := d |}.

Definition with_next (nc : option string) (d : data) : data :=
  {| nextchar := nc; first_nonopt := first_nonopt d;
     last_nonopt := last_nonopt d; ordering := ordering d;
     initialized := initialized d |}.

Definition with_nonopts (f l : Z) (d : data) : data :=
  {| nextchar := nextchar d; first_nonopt := f; last_nonopt := l;
     ordering := ordering d; initialized := initialized d |}.

(** [process_long_option], for a token that starts with [--]. *)
Definition process_long_option (argc : Z) (argv : list string)
  (optstring : string) (longopts : list option_t) (oo : Z) (i : Z)
  (body : string) (d : data) : getopt_ret data :=
  let (nm, attached) := split_eq body in
  let lookup :=
    match find_exact nm longopts 0 with
    | Some hit => (Some hit, false)
    | None => find_abbrev nm longopts 0 None false
    end in
  let d := with_next None d in
  match lookup with
  | (_, true) | (None, _) =>
      {| ret := char_to_int "?"; longindex := None; ret_argv := argv;
         ret_state := mk (i + 1) 0 None d |}
  | (Some (p, idx), false) =>
      let i := i + 1 in
      let value :=
        match attached with
        | Some v =>
            if has_arg p =? 0 then inr (char_to_int "?")
            else inl (Some v, i)
        | None =>
            if has_arg p =? 1
            then if i <? argc then inl (Some (tok argv i), i + 1)
                 else inr (question optstring)
            else inl (None, i)
        end in
      match value with
      | inr err =>
          {| ret := err; longindex := None; ret_argv := argv;
             ret_state := mk i (val p) None d |}
      | inl (oa, i) =>
          {| ret := match flag p with
                    | Some _ => 0
                    | None => val p
                    end;
             longindex := Some idx; ret_argv := argv;
             ret_state := mk i oo oa d |}
      end
  end.

(** The handling of the next character of a token of short options. *)
Definition process_short_option (argc : Z) (argv : list string)
  (optstring : string) (oo : Z) (i : Z) (c : ascii) (rest : string)
  (d : data) : getopt_ret data :=
  let at_end := String.eqb rest EmptyString in
  let i := if at_end then i + 1 else i in
  let bad := {| ret := char_to_int "?"; longindex := None; ret_argv := argv;
                ret_state := mk i (char_to_int c) None
                               (with_next (Some rest) d) |} in
  if Ascii.eqb c ":" || Ascii.eqb c ";" then bad
  else
    match strchr optstring c with
    | None => bad
    | Some (String _ (String ":" (String ":" _))) =>
        if at_end
        then {| ret := char_to_int c; longindex := None; ret_argv := argv;
                ret_state := mk i oo None (with_next None d) |}
        else {| ret := char_to_int c; longindex := None; ret_argv := argv;
                ret_state := mk (i + 1) oo (Some rest) (with_next None d) |}
    | Some (String _ (String ":" _)) =>
        if negb at_end
        then {| ret := char_to_int c; longindex := None; ret_argv := argv;
                ret_state := mk (i + 1) oo (Some rest) (with_next None d) |}
        else if i =? argc
        then {| ret := question optstring; longindex := None;
                ret_argv := argv;
                ret_state := mk i (char_to_int c) None (with_next None d) |}
        else {| ret := char_to_int c; longindex := None; ret_argv := argv;
                ret_state := mk (i + 1) oo (Some (tok argv i))
                               (with_next None d) |}
    | Some _ =>
        {| ret := char_to_int c; longindex := None; ret_argv := argv;
           ret_state := mk i oo None (with_next (Some rest) d) |}
    end.

(** The step that advances to the next element of [argv], taken when no
    cluster of short options is being read. *)
Definition advance (argc : Z) (argv : list string) (optstring : string)
  (longopts : list option_t) (oo : Z) (i : Z) (d : data)
  : getopt_ret data :=
  let l := if i <? last_nonopt d then i else last_nonopt d in
  let f := if i <? first_nonopt d then i else first_nonopt d in
  (* permutation of what was skipped before *)
  let '(argv, f, l, i) :=
    match ordering d with
    | PERMUTE =>
        let '(argv, f, l) :=
          if negb (f =? l) && negb (l =? i)
          then (exchange argv f l i, f + (i - l), i)
          else if negb (l =? i) then (argv, i, l) else (argv, f, l) in
        let i := skip_nonoptions (Z.to_nat argc) argc argv i in
        (argv, f, i, i)
    | _ => (argv, f, l, i)
    end in
  (* the element "--" *)
  let '(argv, f, l, i) :=
    if negb (i =? argc) && String.eqb (tok argv i) "--"
    then
      let i := i + 1 in
      let '(argv, f) :=
        if negb (f =? l) && negb (l =? i)
        then (exchange argv f l i, f + (i - l))
        else if f =? l then (argv, i) else (argv, f) in
      (argv, f, argc, argc)
    else (argv, f, l, i) in
  let d := with_nonopts f l d in
  if i =? argc
  then {| ret := -1; longindex := None; ret_argv := argv;
          ret_state := mk (if negb (f =? l) then f else i) oo None d |}
  else if nonoption_p argv i
  then match ordering d with
       | REQUIRE_ORDER =>
           {| ret := -1; longindex := None; ret_argv := argv;
              ret_state := mk i oo None d |}
       | _ =>
           {| ret := 1; longindex := None; ret_argv := argv;
              ret_state := mk (i + 1) oo (Some (tok argv i)) d |}
       end
  else
    match tok argv i with
    | String _ (String "-" body) =>
        process_long_option argc argv optstring longopts oo i body d
    | String _ (String c rest) =>
        process_short_option argc argv optstring oo i c rest d
    | _ =>
        {| ret := -1; longindex := None; ret_argv := argv;
           ret_state := mk i oo None d |}
    end.

(** [getopt_long] *)
Definition getopt_long (argc : Z) (argv : list string) (optstring : string)
  (longopts : list option_t) (g : getopt_t data) : getopt_ret data :=
  if argc <? 1
  then {| ret := -1; longindex := None; ret_argv := argv; ret_state := g |}
  else
    let fresh_start := (optind g =? 0) || negb (initialized (priv g)) in
    let i := if optind g =? 0 then 1 else optind g in
    let d :=
      if fresh_start
      then {| nextchar := None; first_nonopt := i; last_nonopt := i;
              ordering := match optstring with
                          | String "-" _ => RETURN_IN_ORDER
                          | String "+" _ => REQUIRE_ORDER
                          | _ => PERMUTE
                          end;
              initialized := true |}
      else priv g in
    let optstring :=
      match optstring with
      | String "-" s | String "+" s => s
      | s => s
      end in
    match nextchar d with
    | Some (String c rest) =>
        process_short_option argc argv optstring (optopt g) i c rest d
    | _ => advance argc argv optstring longopts (optopt g) i d
    end.

End Glibc.

(** The double quote character. *)
Definition dquote : ascii := ascii_of_nat 34.

(** Modelled from the spec: the copy of the argument vector "with
    leading/trailing quote characters stripped from each token"; the
    function itself belongs to the PMIx library.  One double quote is
    removed at each end of a token that carries one. *)
Definition strip_quotes (s : string) : string :=
  let s := match s with
           | String c rest => if Ascii.eqb c dquote then rest else s
           | EmptyString => s
           end in
  let n := String.length s in
  if String.eqb (substring (n - 1) 1 s) (String dquote EmptyString)
  then substring 0 (n - 1) s
  else s.

(** The collaborators used to run the parser on concrete command lines:
    the reference scanner, the quote-stripping copy, and a renderer that
    knows every topic and answers with the names of the file and the topic
    between brackets. *)
Definition reference : Externals :=
  {| scan_priv := Glibc.data;
     getopt_long := Glibc.getopt_long;
     pmix_argv_copy_strip := map strip_quotes;
     prte_show_help_string :=
       fun file topic _ _ => Some ("[" ++ file ++ ":" ++ topic ++ "]")%string;
     prte_tool_basename := "prte";
     PRTE_PROXY_VERSION_STRING := "3.0";
     PRTE_PROXY_BUGREPORT := "bugs" |}.

(** The scanner globals of a process that has not scanned anything yet. *)
Definition boot : getopt_t Glibc.data :=
  {| optind := 1; opterr := 1; optopt := 63; optarg := None;
     priv := Glibc.fresh |}.

(** What a caller sees of a finished run. *)
Definition observe {E : Externals} (r : res (status * parser))
  : res (status * prte_cli_result_t * list event * Z) :=
  do p <- r;
  Ok (fst p, results (snd p), trace (snd p), optind (scanner (snd p))).

(** * The vocabulary of the properties *)

(** ** Results *)

(** The keys of a list of items, in the order of the items. *)
Definition keys (l : list prte_cli_item_t) : list string := map key l.

(** The item a scan for [k] stops at. *)
Definition find_item (k : string) (l : list prte_cli_item_t)
  : option prte_cli_item_t :=
  find (fun opt => String.eqb (key opt) k) l.

(** The values recorded for [k]; none when [k] has no item. *)
Definition values_of (k : string) (r : prte_cli_result_t) : list string :=
  match find_item k (instances r) with
  | Some opt => values opt
  | None => []
  end.

(** The values a call of the store callback adds: one, or none for a NULL
    argument. *)
Definition opt_list (v : option string) : list string :=
  match v with
  | Some s => [s]
  | None => []
  end.

(** A succession of calls of [check_store], first call first. *)
Definition store_all (calls : list (string * option string))
  (r : prte_cli_result_t) : prte_cli_result_t :=
  fold_left (fun r c => check_store (fst c) (snd c) r) calls r.

(** ** Traces *)

(** The kinds of action. *)
Definition is_store (e : event) : Prop :=
  match e with
  | Store _ _ => True
  | _ => False
  end.

Definition is_printf (e : event) : Prop :=
  match e with
  | Printf _ => True
  | _ => False
  end.

Definition is_assign_tail (e : event) : bool :=
  match e with
  | AssignTail _ => true
  | _ => false
  end.

(** The effect of one action on the results object. *)
Definition apply_event (mystore : prte_cmd_line_store_fn_t) (e : event)
  (r : prte_cli_result_t) : prte_cli_result_t :=
  match e with
  | Printf _ => r
  | Store name optval => mystore name optval r
  | AssignTail t => {| instances := instances r; tail := Some t |}
  end.

(** The effect of a run of actions, first action first. *)
Definition replay (mystore : prte_cmd_line_store_fn_t) (evs : list event)
  (r : prte_cli_result_t) : prte_cli_result_t :=
  fold_left (fun r e => apply_event mystore e r) evs r.

(** The values a trace hands to the store callback for the key [k], in the
    order of the calls. *)
Definition stored_values (k : string) (evs : list event) : list string :=
  flat_map (fun e => match e with
                     | Store name (Some v) =>
                         if String.eqb name k then [v] else []
                     | _ => []
                     end) evs.

(** The number of times a trace assigns [results->tail]. *)
Definition tail_assignments (evs : list event) : nat :=
  List.length (filter is_assign_tail evs).

(** ** Reports of the scanner *)

(** The three kinds of report the parser distinguishes, with the argument
    slot, the cursor and the argument vector the scanner leaves behind. *)
Definition long_match {P : Type} (r : getopt_ret P) (idx : Z)
  (arg : option string) (next : Z) (av : list string) : Prop :=
  ret r = 0 /\ longindex r = Some idx /\ optarg (ret_state r) = arg /\
  optind (ret_state r) = next /\ ret_argv r = av.

Definition short_match {P : Type} (r : getopt_ret P) (code : Z)
  (arg : option string) (next : Z) (av : list string) : Prop :=
  ret r = code /\ optarg (ret_state r) = arg /\
  optind (ret_state r) = next /\ ret_argv r = av.

Definition exhausted {P : Type} (r : getopt_ret P) (next : Z)
  (av : list string) : Prop :=
  ret r = -1 /\ optind (ret_state r) = next /\ ret_argv r = av.

(** The test the default case makes before it treats a code as a short
    option: the scan started at the head of the vector, or at a token that
    begins with a dash. *)
Definition at_option (av : list string) (argind : Z) : Prop :=
  argind = 0 \/
  exists tok, argv_str av argind = Ok tok /\ first_char tok = "-"%char.

(** The codes that reach the [default] case. *)
Definition default_code (code : Z) : Prop :=
  code <> -1 /\ code <> 0 /\
  code <> char_to_int "h" /\ code <> char_to_int "V".

(** The report of the first call that [prte_cmd_line_parse] makes on the
    normalized vector [av], and of a later call made in scanner state [s]. *)
Definition first_scan {E : Externals} (av : list string) (shorts : string)
  (myoptions : list option_t) (g : getopt_t scan_priv)
  : getopt_ret scan_priv :=
  getopt_long (pmix_argv_count av) av shorts myoptions (reset g).

Definition next_scan {E : Externals} (argc : Z) (av : list string)
  (shorts : string) (myoptions : list option_t) (s : getopt_t scan_priv)
  : getopt_ret scan_priv :=
  getopt_long argc av shorts myoptions s.

(** The callback the parser stores with: [check_store] when the caller
    passes NULL. *)
Definition mystore_of (storefn : option prte_cmd_line_store_fn_t)
  : prte_cmd_line_store_fn_t :=
  match storefn with
  | None => check_store
  | Some f => f
  end.

(** The state in which the loop is entered. *)
Definition entry {E : Externals} (av : list string)
  (results : prte_cli_result_t) (g : getopt_t scan_priv) : parser :=
  {| argv := av; scanner := reset g; option_index := 0;
     results := results; trace := [] |}.

(** ** The option tables of the examples *)

(** One long option without a short code, [--foo], with a required
    argument. *)
Definition foo_table : list option_t :=
  [{| name := "foo"; has_arg := PRTE_ARG_REQD; flag := None; val := 0 |}].

(** The long option [--myplugin_mca] of the specification. *)
Definition myplugin_table : list option_t :=
  [{| name := "myplugin_mca"; has_arg := PRTE_ARG_REQD; flag := None;
      val := 0 |}].

(** A long option [--name_mca], for the attached form of its argument. *)
Definition name_mca_table : list option_t :=
  [{| name := "name_mca"; has_arg := PRTE_ARG_REQD; flag := None;
      val := 0 |}].

(** An option with the short code [z] and an optional argument. *)
Definition zed_table : list option_t :=
  [{| name := "zed"; has_arg := PRTE_ARG_OPTIONAL; flag := None;
      val := char_to_int "z" |}].

(** An option with the short code [x] and a required argument. *)
Definition xopt_table : list option_t :=
  [{| name := "xopt"; has_arg := PRTE_ARG_REQD; flag := None;
      val := char_to_int "x" |}].

(** A long option [--p_mca] that carries the short code [p]. *)
Definition pmca_table : list option_t :=
  [{| name := "p_mca"; has_arg := PRTE_ARG_REQD; flag := None;
      val := char_to_int "p" |}].

(** A table with an entry named [version]. *)
Definition version_table : list option_t :=
  [{| name := "version"; has_arg := PRTE_ARG_NONE; flag := None; val := 0 |};
   {| name := "foo"; has_arg := PRTE_ARG_REQD; flag := None; val := 0 |}].

(** A flag with the short code [v]. *)
Definition verbose_table : list option_t :=
  [{| name := "verbose"; has_arg := PRTE_ARG_NONE; flag := None;
      val := char_to_int "v" |}].

(** ** Proof automation *)

(** Case analysis on the first [match] or [if] of a hypothesis. *)
Ltac break_match_hyp H :=
  match type of H with
  | context [match ?x with _ => _ end] => destruct x eqn:?
  | context [if ?x then _ else _] => destruct x eqn:?
  end.

(** Case analysis on an innermost [match] of the goal. *)
Ltac break_match_goal :=
  match goal with
  | |- context [match ?x with _ => _ end] =>
      lazymatch x with
      | context [match _ with _ => _ end] => fail
      | _ => destruct x eqn:?
      end
  end.

(** ** Vocabulary of the further properties *)

(** A store call whose key is the name of an entry of the table. *)
Definition stored_from (myoptions : list option_t) (e : event) : Prop :=
  match e with
  | Store k _ => In k (map name myoptions)
  | _ => False
  end.

(** The keys a trace hands to the store callback, in the order of the
    calls. *)
Definition stored_keys (evs : list event) : list string :=
  flat_map (fun e => match e with
                     | Store k _ => [k]
                     | _ => []
                     end) evs.

(** A key joins a list of keys at the end, unless the list has it. *)
Definition add_key (l : list string) (k : string) : list string :=
  if existsb (String.eqb k) l then l else (l ++ [k])%list.

(** The keys of a succession of stores in the order in which they were
    first seen, after the keys [l] that were there before. *)
Definition first_seen (l : list string) (ks : list string) : list string :=
  fold_left add_key ks l.

(** What a finished run shows apart from the results object: the status,
    the actions, and the scanner's cursor and argument vector. *)
Definition outline {E : Externals} (r : res (status * parser))
  : res (status * list event * Z * list string) :=
  do p <- r;
  Ok (fst p, trace (snd p), optind (scanner (snd p)), argv (snd p)).

(** The actions of a trace that do not depend on the store callback:
    every action but the values the results take. *)
Definition same_control {E : Externals} (a b : parser) : Prop :=
  argv a = argv b /\ scanner a = scanner b /\
  option_index a = option_index b /\ trace a = trace b.

(** [n] dashes. *)
Fixpoint dashes (n : nat) : string :=
  match n with
  | O => EmptyString
  | S n => String "-" (dashes n)
  end.

(** A callback that keeps the last value only. *)
Definition last_wins (nm : string) (v : option string)
  (r : prte_cli_result_t) : prte_cli_result_t :=
  {| instances :=
       {| key := nm; values := opt_list v |}
       :: filter (fun opt => negb (String.eqb (key opt) nm)) (instances r);
     tail := tail r |}.

(** * Properties *)

(** ** The model on small inputs *)

Example endswith_mca :
  endswith (Some "myplugin_mca") (Some "mca") = PRTE_SUCCESS.
Proof. reflexivity. Qed.

Example endswith_too_short :
  endswith (Some "ca") (Some "mca") = PRTE_ERR_BAD_PARAM.
Proof. reflexivity. Qed.

Example endswith_null : endswith None (Some "mca") = PRTE_ERR_BAD_PARAM.
Proof. reflexivity. Qed.

Example check_store_first_seen_order :
  instances
    (check_store "np" (Some "8")
       (check_store "verbose" None (check_store "np" (Some "4") ocon)))
  = [{| key := "np"; values := ["4"; "8"] |};
     {| key := "verbose"; values := [] |}].
Proof. reflexivity. Qed.

Example find_short_optional :
  find_short (char_to_int "z") "hVx:z::" = Some "::".
Proof. reflexivity. Qed.

Example help_alone_prints_usage :
  observe (prte_cmd_line_parse (E := reference) 1 ["prog"; "-h"] "hV"
             foo_table None ocon "help.txt" boot)
  = Ok (PRTE_ERR_SILENT, ocon, [Printf "[help.txt:usage]"], 2).
Proof. vm_compute. reflexivity. Qed.

Example help_on_an_option :
  observe (prte_cmd_line_parse (E := reference) 1 ["prog"; "-h"; "--foo"]
             "hV" foo_table None ocon "help.txt" boot)
  = Ok (PRTE_ERR_SILENT, ocon, [Printf "[help.txt:foo]"], 2).
Proof. vm_compute. reflexivity. Qed.

Example help_on_version :
  observe (prte_cmd_line_parse (E := reference) 1 ["prog"; "-h"; "version"]
             "hV" foo_table None ocon "help.txt" boot)
  = Ok (PRTE_ERR_SILENT, ocon, [Printf "[help-cli.txt:version]"], 2).
Proof. vm_compute. reflexivity. Qed.

Example unregistered_short_option :
  observe (prte_cmd_line_parse (E := reference) 1 ["prog"; "-q"] "hV"
             foo_table None ocon "help.txt" boot)
  = Ok (PRTE_ERR_SILENT, ocon,
        [Printf "[help-cli.txt:unregistered-option]"], 2).
Proof. vm_compute. reflexivity. Qed.

Example mca_option_without_second_token :
  observe (prte_cmd_line_parse (E := reference) 2
             ["prog"; "--myplugin_mca"; "key"] "hV" myplugin_table None ocon
             "help.txt" boot)
  = Undef.
Proof. vm_compute. reflexivity. Qed.

(** ** The result accumulator *)

Lemma key_append_value opt v : key (append_value opt v) = key opt.
Proof. destruct v; reflexivity. Qed.

Lemma values_append_value opt v :
  values (append_value opt v) = (values opt ++ opt_list v)%list.
Proof. destruct v; simpl; [reflexivity | now rewrite app_nil_r]. Qed.

Lemma find_item_none k l : find_item k l = None <-> ~ In k (keys l).
Proof.
  unfold find_item, keys.
  induction l as [|opt l IH]; simpl.
  - tauto.
  - destruct (String.eqb_spec (key opt) k) as [Heq|Hne].
    + split; [discriminate | intros H; exfalso; apply H; now left].
    + rewrite IH. split; [intros H [H1|H1]; subst; tauto | tauto].
Qed.

Lemma find_item_some k l opt :
  find_item k l = Some opt -> In opt l /\ key opt = k.
Proof.
  unfold find_item. intros H. apply find_some in H.
  destruct H as [H1 H2]. split; [assumption | now apply String.eqb_eq].
Qed.

(** A key that is present: the first item that carries it is the one
    updated, everything else stays in place. *)
Lemma check_store_list_found name v l1 opt l2 :
  key opt = name -> ~ In name (keys l1) ->
  check_store_list name v (l1 ++ opt :: l2)
  = (l1 ++ append_value opt v :: l2)%list.
Proof.
  intros Hk. induction l1 as [|x l1 IH]; simpl; intros Hn.
  - rewrite Hk, String.eqb_refl. reflexivity.
  - destruct (String.eqb_spec (key x) name) as [Heq|Hne].
    + exfalso. apply Hn. now left.
    + rewrite IH; [reflexivity | tauto].
Qed.

(** A key that is absent: a new item goes to the end. *)
Lemma check_store_list_new name v l :
  ~ In name (keys l) ->
  check_store_list name v l
  = (l ++ [{| key := name; values := opt_list v |}])%list.
Proof.
  induction l as [|x l IH]; simpl; intros Hn.
  - destruct v; reflexivity.
  - destruct (String.eqb_spec (key x) name) as [Heq|Hne].
    + exfalso. apply Hn. now left.
    + rewrite IH; [reflexivity | tauto].
Qed.

Lemma in_keys_split name l :
  In name (keys l) ->
  exists l1 opt l2,
    l = (l1 ++ opt :: l2)%list /\ key opt = name /\ ~ In name (keys l1).
Proof.
  induction l as [|x l IH]; simpl; [tauto|].
  intros H. destruct (String.eqb_spec (key x) name) as [Heq|Hne].
  - exists [], x, l. simpl. tauto.
  - destruct H as [H|H]; [contradiction|].
    destruct (IH H) as (l1 & opt & l2 & -> & Hk & Hn).
    exists (x :: l1), opt, l2. simpl. repeat split; [assumption | tauto].
Qed.

Lemma keys_check_store_list_in name v l :
  In name (keys l) -> keys (check_store_list name v l) = keys l.
Proof.
  intros H. destruct (in_keys_split _ _ H) as (l1 & opt & l2 & -> & Hk & Hn).
  rewrite check_store_list_found by assumption.
  unfold keys. rewrite !map_app. simpl. now rewrite key_append_value.
Qed.

Lemma keys_check_store_list_new name v l :
  ~ In name (keys l) ->
  keys (check_store_list name v l) = (keys l ++ [name])%list.
Proof.
  intros H. rewrite check_store_list_new by assumption.
  unfold keys. rewrite map_app. reflexivity.
Qed.

Lemma in_keys_dec name l : {In name (keys l)} + {~ In name (keys l)}.
Proof. apply in_dec, string_dec. Qed.

Lemma check_store_list_NoDup name v l :
  NoDup (keys l) -> NoDup (keys (check_store_list name v l)).
Proof.
  intros H. destruct (in_keys_dec name l) as [Hin|Hout].
  - now rewrite keys_check_store_list_in.
  - rewrite keys_check_store_list_new by assumption.
    apply NoDup_app; repeat split; try assumption.
    + repeat constructor. simpl. tauto.
    + intros x Hx [Hy|[]]. subst. tauto.
Qed.

Lemma in_keys_check_store_list name v l :
  In name (keys (check_store_list name v l)).
Proof.
  destruct (in_keys_dec name l) as [Hin|Hout].
  - now rewrite keys_check_store_list_in.
  - rewrite keys_check_store_list_new by assumption.
    apply in_or_app. right. now left.
Qed.

Lemma keys_check_store_list_mono name v l k :
  In k (keys l) -> In k (keys (check_store_list name v l)).
Proof.
  intros H. destruct (in_keys_dec name l) as [Hin|Hout].
  - now rewrite keys_check_store_list_in.
  - rewrite keys_check_store_list_new by assumption.
    apply in_or_app. now left.
Qed.

Lemma find_item_app_out k l1 l2 :
  ~ In k (keys l1) -> find_item k (l1 ++ l2) = find_item k l2.
Proof.
  unfold find_item. induction l1 as [|x l1 IH]; simpl; intros Hn.
  - reflexivity.
  - destruct (String.eqb_spec (key x) k) as [Heq|Hne].
    + exfalso. apply Hn. now left.
    + apply IH. tauto.
Qed.

Lemma find_item_app_in k l1 l2 :
  In k (keys l1) -> find_item k (l1 ++ l2) = find_item k l1.
Proof.
  unfold find_item. induction l1 as [|x l1 IH]; simpl; intros Hin.
  - contradiction.
  - destruct (String.eqb_spec (key x) k) as [Heq|Hne].
    + reflexivity.
    + apply IH. destruct Hin; [contradiction | assumption].
Qed.

(** The values of the stored key grow at the end, by the value if there
    is one. *)
Lemma values_of_check_store_same name v r :
  values_of name (check_store name v r)
  = (values_of name r ++ opt_list v)%list.
Proof.
  unfold values_of, check_store. simpl.
  destruct (in_keys_dec name (instances r)) as [Hin|Hout].
  - destruct (in_keys_split _ _ Hin) as (l1 & opt & l2 & -> & Hk & Hn).
    rewrite check_store_list_found by assumption.
    rewrite !find_item_app_out by assumption.
    unfold find_item. simpl.
    rewrite key_append_value, Hk, String.eqb_refl.
    apply values_append_value.
  - rewrite check_store_list_new by assumption.
    rewrite find_item_app_out by assumption.
    apply find_item_none in Hout. rewrite Hout.
    unfold find_item. simpl. now rewrite String.eqb_refl.
Qed.

(** The values of every other key are left alone. *)
Lemma values_of_check_store_other name v r k :
  k <> name -> values_of k (check_store name v r) = values_of k r.
Proof.
  intros Hne. unfold values_of, check_store. simpl.
  destruct (in_keys_dec name (instances r)) as [Hin|Hout].
  - destruct (in_keys_split _ _ Hin) as (l1 & opt & l2 & -> & Hk & Hn).
    rewrite check_store_list_found by assumption.
    destruct (in_keys_dec k l1) as [Hk1|Hk1].
    + now rewrite !find_item_app_in.
    + rewrite !find_item_app_out by assumption.
      unfold find_item. simpl. rewrite key_append_value, Hk.
      destruct (String.eqb_spec name k); [congruence | reflexivity].
  - rewrite check_store_list_new by assumption.
    destruct (in_keys_dec k (instances r)) as [Hk1|Hk1].
    + now rewrite find_item_app_in.
    + rewrite find_item_app_out by assumption.
      apply find_item_none in Hk1. rewrite Hk1.
      unfold find_item. simpl.
      destruct (String.eqb_spec name k); [congruence | reflexivity].
Qed.

Lemma tail_check_store name v r : tail (check_store name v r) = tail r.
Proof. reflexivity. Qed.

(** ** Runs of actions *)

Lemma replay_app mystore evs1 evs2 r :
  replay mystore (evs1 ++ evs2) r = replay mystore evs2 (replay mystore evs1 r).
Proof. apply fold_left_app. Qed.

Lemma replay_printf mystore evs r :
  Forall is_printf evs -> replay mystore evs r = r.
Proof.
  intros H. revert r. induction H as [|e evs He _ IH]; intros r.
  - reflexivity.
  - destruct e; try contradiction. simpl. apply IH.
Qed.

Lemma tail_assignments_app evs1 evs2 :
  tail_assignments (evs1 ++ evs2)
  = (tail_assignments evs1 + tail_assignments evs2)%nat.
Proof. unfold tail_assignments. now rewrite filter_app, length_app. Qed.

Lemma tail_assignments_store evs :
  Forall is_store evs -> tail_assignments evs = 0%nat.
Proof.
  induction 1 as [|e evs He _ IH]; [reflexivity|].
  destruct e; try contradiction. exact IH.
Qed.

Lemma tail_assignments_printf evs :
  Forall is_printf evs -> tail_assignments evs = 0%nat.
Proof.
  induction 1 as [|e evs He _ IH]; [reflexivity|].
  destruct e; try contradiction. exact IH.
Qed.

Lemma stored_values_app k evs1 evs2 :
  stored_values k (evs1 ++ evs2)
  = (stored_values k evs1 ++ stored_values k evs2)%list.
Proof. apply flat_map_app. Qed.

(** With the default callback, the values of a key after a run of actions
    are the values before it followed by the values stored for the key, in
    the order of the calls. *)
Lemma values_of_replay k evs r :
  values_of k (replay check_store evs r)
  = (values_of k r ++ stored_values k evs)%list.
Proof.
  revert r. induction evs as [|e evs IH]; intros r; simpl.
  - now rewrite app_nil_r.
  - unfold replay in *. simpl. rewrite IH. clear IH.
    destruct e as [s|name v|t]; simpl.
    + reflexivity.
    + destruct (String.eqb_spec name k) as [->|Hne].
      * rewrite values_of_check_store_same, <- app_assoc.
        destruct v; reflexivity.
      * rewrite values_of_check_store_other by congruence.
        destruct v; reflexivity.
    + reflexivity.
Qed.

Lemma tail_replay_store evs r :
  Forall is_store evs -> tail (replay check_store evs r) = tail r.
Proof.
  intros H. revert r. induction H as [|e evs He _ IH]; intros r.
  - reflexivity.
  - destruct e; try contradiction. unfold replay in *. simpl.
    now rewrite IH.
Qed.

Lemma keys_replay_mono evs r k :
  In k (keys (instances r)) ->
  In k (keys (instances (replay check_store evs r))).
Proof.
  revert r. induction evs as [|e evs IH]; intros r H; [assumption|].
  unfold replay in *. simpl. apply IH.
  destruct e; simpl; try assumption.
  now apply keys_check_store_list_mono.
Qed.

Lemma replay_NoDup evs r :
  NoDup (keys (instances r)) ->
  NoDup (keys (instances (replay check_store evs r))).
Proof.
  revert r. induction evs as [|e evs IH]; intros r H; [assumption|].
  unfold replay in *. simpl. apply IH.
  destruct e; simpl; try assumption.
  now apply check_store_list_NoDup.
Qed.

Lemma print_help_printf {E : Externals} file topic err args :
  Forall is_printf (print_help file topic err args).
Proof.
  unfold print_help. destruct prte_show_help_string; repeat constructor.
Qed.

(** ** One pass through the loop *)

Section Loop.

Context {E : Externals}.
Variable shorts : string.
Variable myoptions : list option_t.
Variable mystore : prte_cmd_line_store_fn_t.
Variable helpfile : string.
Variable argc : Z.

Local Abbreviation switch := (dispatch shorts myoptions mystore helpfile).
Local Abbreviation loop :=
  (parse_loop shorts myoptions mystore helpfile argc).

Lemma parse_loop_unfold fuel st :
  loop (S fuel) st =
  let r := getopt_long argc (argv st) shorts myoptions (scanner st) in
  if ret r =? -1 then finish argc (scanned r st)
  else
    do f <- switch (optind (scanner st)) (ret r) (scanned r st);
    match f with
    | Break st => loop fuel st
    | Return rc st => Ok (rc, st)
    end.
Proof. reflexivity. Qed.

(** A pass that ends in [break] has called the store callback at most
    once, and has done nothing else to the results or the trace. *)
Lemma dispatch_break argind opt st st' :
  switch argind opt st = Ok (Break st') ->
  argv st' = argv st /\
  exists evs,
    Forall is_store evs /\
    trace st' = (trace st ++ evs)%list /\
    results st' = replay mystore evs (results st).
Proof.
  intros H.
  assert (Hnil : argv st = argv st /\
                 exists evs, Forall is_store evs /\
                   trace st = (trace st ++ evs)%list /\
                   results st = replay mystore evs (results st)).
  { split; [reflexivity|]. exists []. rewrite app_nil_r. now repeat split. }
  assert (Hone : forall n v, argv st = argv st /\
                 exists evs, Forall is_store evs /\
                   (trace st ++ [Store n v])%list = (trace st ++ evs)%list /\
                   mystore n v (results st) = replay mystore evs (results st)).
  { intros n v. split; [reflexivity|]. exists [Store n v].
    repeat split. repeat constructor. }
  unfold dispatch, case_long, case_h, case_V, case_default,
    short_argument, help_exit, bind in H.
  repeat (break_match_hyp H; try discriminate);
    inversion H; subst; clear H; simpl; auto.
Qed.

(** A pass that ends in [return] returns [PRTE_ERR_SILENT], has printed at
    most the text of one help topic, and has not touched the results, the
    argument vector or the scanner. *)
Lemma dispatch_return argind opt st rc st' :
  switch argind opt st = Ok (Return rc st') ->
  rc = PRTE_ERR_SILENT /\
  results st' = results st /\
  scanner st' = scanner st /\
  argv st' = argv st /\
  exists evs, Forall is_printf evs /\ trace st' = (trace st ++ evs)%list.
Proof.
  intros H.
  unfold dispatch, case_long, case_h, case_V, case_default,
    short_argument, help_exit, bind in H.
  repeat (break_match_hyp H; try discriminate);
    inversion H; subst; clear H; simpl;
    repeat split; eexists; (split; [apply print_help_printf | reflexivity]).
Qed.

(** The shape of every finished run: calls of the store callback first;
    then either the text of one help topic and [PRTE_ERR_SILENT], or
    [PRTE_SUCCESS], preceded by the one assignment of the tail when the
    cursor stopped short of [argc]. *)
Lemma parse_loop_run fuel st rc fin :
  loop fuel st = Ok (rc, fin) ->
  exists stores final,
    trace fin = (trace st ++ stores ++ final)%list /\
    Forall is_store stores /\
    results fin = replay mystore (stores ++ final) (results st) /\
    ((rc = PRTE_ERR_SILENT /\ Forall is_printf final) \/
     (rc = PRTE_SUCCESS /\ final = [] /\ argc <= optind (scanner fin)) \/
     (rc = PRTE_SUCCESS /\
      final = [AssignTail (pmix_argv_copy_from (argv fin)
                             (optind (scanner fin)))] /\
      0 <= optind (scanner fin) < argc)).
Proof.
  revert st. induction fuel as [|fuel IH]; intros st H; [discriminate|].
  rewrite parse_loop_unfold in H. cbv zeta in H.
  set (r := getopt_long argc (argv st) shorts myoptions (scanner st)) in *.
  destruct (ret r =? -1).
  - unfold finish in H.
    destruct (optind (scanner (scanned r st)) <? argc) eqn:Hlt.
    + destruct (optind (scanner (scanned r st)) <? 0) eqn:Hneg;
        [discriminate|].
      inversion H; subst; clear H. simpl.
      exists [], [AssignTail (pmix_argv_copy_from (ret_argv r)
                                (optind (ret_state r)))].
      simpl in *. split; [reflexivity|]. split; [constructor|].
      split; [reflexivity|]. right. right. repeat split; lia.
    + inversion H; subst; clear H. exists [], [].
      simpl in *. rewrite app_nil_r. split; [reflexivity|].
      split; [constructor|]. split; [reflexivity|].
      right. left. repeat split. lia.
  - unfold bind in H.
    destruct (switch (optind (scanner st)) (ret r) (scanned r st))
      as [[st2|rc2 st2]| |] eqn:Hd; try discriminate.
    + apply dispatch_break in Hd. destruct Hd as (_ & evs & Hs & Ht & Hr).
      apply IH in H. destruct H as (stores & final & Ht' & Hs' & Hr' & Hc).
      exists (evs ++ stores)%list, final.
      split; [|split; [|split]].
      * rewrite Ht', Ht. simpl. now rewrite <- !app_assoc.
      * apply Forall_app. now split.
      * rewrite Hr', Hr. simpl. rewrite <- app_assoc. symmetry.
        apply replay_app.
      * exact Hc.
    + inversion H; subst; clear H.
      apply dispatch_return in Hd.
      destruct Hd as (-> & Hr & _ & _ & evs & Hp & Ht).
      exists [], evs. simpl.
      split; [|split; [|split]].
      * exact Ht.
      * constructor.
      * rewrite Hr. simpl. symmetry. now apply replay_printf.
      * left. now split.
Qed.

(** A finished run does not depend on the fuel it was given. *)
Lemma parse_loop_fuel fuel extra st out :
  loop fuel st = Ok out -> loop (fuel + extra) st = Ok out.
Proof.
  revert st. induction fuel as [|fuel IH]; intros st H; [discriminate|].
  change (S fuel + extra)%nat with (S (fuel + extra)).
  rewrite parse_loop_unfold in *. cbv zeta in *.
  destruct (ret (getopt_long argc (argv st) shorts myoptions (scanner st))
            =? -1); [exact H|].
  destruct (switch (optind (scanner st))
              (ret (getopt_long argc (argv st) shorts myoptions (scanner st)))
              (scanned (getopt_long argc (argv st) shorts myoptions
                          (scanner st)) st))
    as [[st2|rc2 st2]| |]; cbn [bind] in *; try discriminate.
  - now apply IH.
  - exact H.
Qed.

End Loop.

(** ** The passes of the loop, from the report of the scanner *)

Section Steps.

Context {E : Externals}.
Variable shorts : string.
Variable myoptions : list option_t.
Variable mystore : prte_cmd_line_store_fn_t.
Variable helpfile : string.
Variable argc : Z.

Local Abbreviation switch := (dispatch shorts myoptions mystore helpfile).
Local Abbreviation loop :=
  (parse_loop shorts myoptions mystore helpfile argc).
Local Abbreviation scan st :=
  (getopt_long argc (argv st) shorts myoptions (scanner st)).

Lemma loop_exhausted fuel st :
  ret (scan st) = -1 ->
  loop (S fuel) st = finish argc (scanned (scan st) st).
Proof. intros H. rewrite parse_loop_unfold. cbv zeta. now rewrite H. Qed.

Lemma loop_break fuel st st' :
  ret (scan st) <> -1 ->
  switch (optind (scanner st)) (ret (scan st)) (scanned (scan st) st)
  = Ok (Break st') ->
  loop (S fuel) st = loop fuel st'.
Proof.
  intros Hne Hd. rewrite parse_loop_unfold. cbv zeta.
  apply Z.eqb_neq in Hne. now rewrite Hne, Hd.
Qed.

Lemma loop_return fuel st rc st' :
  ret (scan st) <> -1 ->
  switch (optind (scanner st)) (ret (scan st)) (scanned (scan st) st)
  = Ok (Return rc st') ->
  loop (S fuel) st = Ok (rc, st').
Proof.
  intros Hne Hd. rewrite parse_loop_unfold. cbv zeta.
  apply Z.eqb_neq in Hne. now rewrite Hne, Hd.
Qed.

Lemma dispatch_long_help argind st o a :
  option_at myoptions (option_index st) = Ok o ->
  optarg (scanner st) = Some a ->
  long_help_directive a = true ->
  switch argind 0 st = Ok (help_exit helpfile (name o) false [] st).
Proof.
  intros Ho Ha Hh. unfold dispatch, case_long.
  rewrite Z.eqb_refl, Ho, Ha. cbn [bind is_long_help]. now rewrite Hh.
Qed.

Lemma dispatch_mca argind st o a b :
  option_at myoptions (option_index st) = Ok o ->
  is_long_help (optarg (scanner st)) = false ->
  endswith (Some (name o)) (Some "mca") = PRTE_SUCCESS ->
  argv_at (argv st) (optind (scanner st) - 1) = Ok (Some a) ->
  argv_at (argv st) (optind (scanner st)) = Ok (Some b) ->
  switch argind 0 st
  = Ok (Break (set_optind (optind (scanner st) + 1)
                 (call_store mystore (name o)
                    (Some (a ++ "=" ++ b)%string) st))).
Proof.
  intros Ho Hh He Ha Hb. unfold dispatch, case_long, argv_str.
  rewrite Z.eqb_refl, Ho. cbn [bind]. rewrite Hh, He. cbn [status_eqb].
  rewrite Ha. cbn [bind]. rewrite Hb. reflexivity.
Qed.

Lemma dispatch_long_store argind st o :
  option_at myoptions (option_index st) = Ok o ->
  is_long_help (optarg (scanner st)) = false ->
  endswith (Some (name o)) (Some "mca") <> PRTE_SUCCESS ->
  switch argind 0 st
  = Ok (Break (call_store mystore (name o) (optarg (scanner st)) st)).
Proof.
  intros Ho Hh He. unfold dispatch, case_long.
  rewrite Z.eqb_refl, Ho. cbn [bind]. rewrite Hh.
  destruct (endswith (Some (name o)) (Some "mca")); cbn [status_eqb];
    congruence.
Qed.

Lemma dispatch_V argind st :
  switch argind (char_to_int "V") st
  = Ok (help_exit helpfile "version" false
          [Some prte_tool_basename; Some "PRRTE";
           Some PRTE_PROXY_VERSION_STRING; Some PRTE_PROXY_BUGREPORT] st).
Proof. reflexivity. Qed.

Lemma dispatch_short argind opt st after ptr o :
  opt <> 0 -> opt <> char_to_int "h" -> opt <> char_to_int "V" ->
  at_option (argv st) argind ->
  find_short opt shorts = Some after ->
  short_argument after st = Ok ptr ->
  find_val opt myoptions = Some o ->
  switch argind opt st
  = Ok (if is_short_help ptr
        then help_exit helpfile (name o) true [] st
        else Break (call_store mystore (name o)
                      (if has_arg o =? PRTE_ARG_NONE then None else ptr)
                      st)).
Proof.
  intros H0 Hh HV Hat Hs Hp Hv. unfold dispatch.
  apply Z.eqb_neq in H0, Hh, HV. rewrite H0, Hh, HV.
  unfold case_default.
  assert (Hskip :
    (if argind =? 0 then Ok false
     else do tok <- argv_str (argv st) argind;
          Ok (negb (Ascii.eqb (first_char tok) "-"))) = Ok false).
  { destruct Hat as [->|(tok & Htok & Hc)]; [reflexivity|].
    destruct (argind =? 0); [reflexivity|].
    rewrite Htok. cbn [bind]. rewrite Hc. reflexivity. }
  rewrite Hskip. cbn [bind]. rewrite Hs, Hp. cbn [bind]. rewrite Hv.
  destruct (is_short_help ptr); reflexivity.
Qed.

(** The same steps, from the report of the scanner to the next state of
    the loop. *)

Lemma loop_long_help fuel st idx o a next av :
  long_match (scan st) idx (Some a) next av ->
  option_at myoptions idx = Ok o ->
  long_help_directive a = true ->
  loop (S fuel) st
  = Ok (PRTE_ERR_SILENT,
        emit (print_help helpfile (name o) false []) (scanned (scan st) st)).
Proof.
  intros (Hr & Hl & Ha & _ & _) Ho Hh.
  apply loop_return; rewrite Hr; [discriminate|].
  apply dispatch_long_help with (a := a); try assumption.
  cbn [option_index scanned]. now rewrite Hl.
Qed.

Lemma loop_mca fuel st idx o arg next av a b :
  long_match (scan st) idx arg next av ->
  option_at myoptions idx = Ok o ->
  is_long_help arg = false ->
  endswith (Some (name o)) (Some "mca") = PRTE_SUCCESS ->
  argv_at av (next - 1) = Ok (Some a) ->
  argv_at av next = Ok (Some b) ->
  loop (S fuel) st
  = loop fuel
      (set_optind (next + 1)
         (call_store mystore (name o) (Some (a ++ "=" ++ b)%string)
            (scanned (scan st) st))).
Proof.
  intros (Hr & Hl & Ha & Hi & Hv) Ho Hh He Hx Hy.
  apply loop_break; rewrite Hr; [discriminate|].
  rewrite <- Hi.
  apply dispatch_mca; cbn [option_index scanned scanner argv];
    rewrite ?Hl, ?Ha, ?Hi, ?Hv; assumption.
Qed.

Lemma loop_long_store fuel st idx o arg next av :
  long_match (scan st) idx arg next av ->
  option_at myoptions idx = Ok o ->
  is_long_help arg = false ->
  endswith (Some (name o)) (Some "mca") <> PRTE_SUCCESS ->
  loop (S fuel) st
  = loop fuel (call_store mystore (name o) arg (scanned (scan st) st)).
Proof.
  intros (Hr & Hl & Ha & Hi & Hv) Ho Hh He.
  apply loop_break; rewrite Hr; [discriminate|].
  rewrite <- Ha.
  apply dispatch_long_store; cbn [option_index scanned scanner];
    rewrite ?Hl, ?Ha; assumption.
Qed.

Lemma loop_V fuel st :
  ret (scan st) = char_to_int "V" ->
  loop (S fuel) st
  = Ok (PRTE_ERR_SILENT,
        emit (print_help helpfile "version" false
                [Some prte_tool_basename; Some "PRRTE";
                 Some PRTE_PROXY_VERSION_STRING; Some PRTE_PROXY_BUGREPORT])
          (scanned (scan st) st)).
Proof.
  intros Hr. apply loop_return; rewrite Hr; [discriminate|].
  apply dispatch_V.
Qed.

Lemma loop_short_store fuel st code after ptr o :
  ret (scan st) = code ->
  code <> -1 -> code <> 0 ->
  code <> char_to_int "h" -> code <> char_to_int "V" ->
  at_option (ret_argv (scan st)) (optind (scanner st)) ->
  find_short code shorts = Some after ->
  short_argument after (scanned (scan st) st) = Ok ptr ->
  find_val code myoptions = Some o ->
  is_short_help ptr = false ->
  loop (S fuel) st
  = loop fuel
      (call_store mystore (name o)
         (if has_arg o =? PRTE_ARG_NONE then None else ptr)
         (scanned (scan st) st)).
Proof.
  intros Hr H1 H0 Hh HV Hat Hs Hp Hv Hn.
  apply loop_break; rewrite Hr; [assumption|].
  rewrite dispatch_short with (ptr := ptr) (o := o) (after := after);
    try assumption.
  now rewrite Hn.
Qed.

Lemma loop_short_help fuel st code after ptr o :
  ret (scan st) = code ->
  code <> -1 -> code <> 0 ->
  code <> char_to_int "h" -> code <> char_to_int "V" ->
  at_option (ret_argv (scan st)) (optind (scanner st)) ->
  find_short code shorts = Some after ->
  short_argument after (scanned (scan st) st) = Ok ptr ->
  find_val code myoptions = Some o ->
  is_short_help ptr = true ->
  loop (S fuel) st
  = Ok (PRTE_ERR_SILENT,
        emit (print_help helpfile (name o) true []) (scanned (scan st) st)).
Proof.
  intros Hr H1 H0 Hh HV Hat Hs Hp Hv Hn.
  apply loop_return; rewrite Hr; [assumption|].
  rewrite dispatch_short with (ptr := ptr) (o := o) (after := after);
    try assumption.
  now rewrite Hn.
Qed.

End Steps.

(** ** The whole function *)

Lemma parse_entry {E : Externals} fuel pargv shorts myoptions storefn
  results helpfile g :
  pmix_argv_copy_strip pargv = pargv ->
  prte_cmd_line_parse fuel pargv shorts myoptions storefn results helpfile g
  = parse_loop shorts myoptions (mystore_of storefn) helpfile
      (pmix_argv_count pargv) fuel (entry pargv results g).
Proof.
  intros H. unfold prte_cmd_line_parse, entry. rewrite H.
  destruct storefn; reflexivity.
Qed.

(** ** Facts used for several properties *)

Unset Implicit Arguments.

Lemma length_append (s1 s2 : string) :
  String.length (s1 ++ s2) = (String.length s1 + String.length s2)%nat.
Proof. induction s1 as [|c s1 IH]; simpl; [reflexivity | now rewrite IH]. Qed.

Lemma parse_run {E : Externals} fuel pargv shorts myoptions storefn results0
  helpfile g rc fin :
  prte_cmd_line_parse fuel pargv shorts myoptions storefn results0 helpfile g
  = Ok (rc, fin) ->
  exists stores final,
    trace fin = (stores ++ final)%list /\
    Forall is_store stores /\
    results fin = replay (mystore_of storefn) (stores ++ final) results0 /\
    ((rc = PRTE_ERR_SILENT /\ Forall is_printf final) \/
     (rc = PRTE_SUCCESS /\ final = [] /\
      pmix_argv_count (pmix_argv_copy_strip pargv) <= optind (scanner fin)) \/
     (rc = PRTE_SUCCESS /\
      final = [AssignTail (pmix_argv_copy_from (argv fin)
                             (optind (scanner fin)))] /\
      0 <= optind (scanner fin)
        < pmix_argv_count (pmix_argv_copy_strip pargv))).
Proof.
  unfold prte_cmd_line_parse. intros H.
  apply parse_loop_run in H. destruct storefn; exact H.
Qed.

Lemma in_stored_values nm s evs :
  In (Store nm (Some s)) evs -> In s (stored_values nm evs).
Proof.
  unfold stored_values. intros H. apply in_flat_map.
  exists (Store nm (Some s)). split; [assumption|].
  rewrite String.eqb_refl. now left.
Qed.

Lemma stored_key_present nm v evs r :
  In (Store nm v) evs ->
  In nm (keys (instances (replay check_store evs r))).
Proof.
  revert r. induction evs as [|e evs IH]; intros r; [contradiction|].
  intros [->|H].
  - unfold replay. simpl. apply keys_replay_mono.
    apply in_keys_check_store_list.
  - unfold replay in *. simpl. now apply IH.
Qed.

Lemma find_item_present k l :
  In k (keys l) -> exists opt, find_item k l = Some opt.
Proof.
  intros H. destruct (find_item k l) as [opt|] eqn:Hf.
  - now exists opt.
  - apply find_item_none in Hf. contradiction.
Qed.

(** What a stored option leaves in the results, whatever is stored after
    it: an item with its key, holding its value if it had one. *)
Lemma stored_option_remains nm v evs r :
  In (Store nm v) evs ->
  exists opt,
    In opt (instances (replay check_store evs r)) /\
    key opt = nm /\
    forall s, v = Some s -> In s (values opt).
Proof.
  intros H.
  destruct (find_item_present nm _ (stored_key_present nm v evs r H))
    as [opt Hf].
  exists opt. destruct (find_item_some _ _ Hf) as [Hin Hk].
  repeat split; try assumption.
  intros s ->.
  assert (Hv := values_of_replay nm evs r).
  unfold values_of at 1 in Hv. rewrite Hf in Hv. rewrite Hv.
  apply in_or_app. right. now apply in_stored_values.
Qed.

Lemma store_all_replay calls r :
  store_all calls r
  = replay check_store (map (fun c => Store (fst c) (snd c)) calls) r.
Proof.
  revert r. induction calls as [|c calls IH]; intros r; [reflexivity|].
  unfold store_all, replay in *. simpl. apply IH.
Qed.

Lemma store_all_NoDup calls r :
  NoDup (keys (instances r)) -> NoDup (keys (instances (store_all calls r))).
Proof.
  revert r. induction calls as [|c calls IH]; intros r H; [assumption|].
  unfold store_all in *. simpl. apply IH. simpl.
  now apply check_store_list_NoDup.
Qed.

(** Where keys are unique, the scan for a key finds the one item that
    carries it. *)
Lemma find_item_unique k l opt :
  NoDup (keys l) -> In opt l -> key opt = k -> find_item k l = Some opt.
Proof.
  unfold find_item, keys.
  induction l as [|x l IH]; simpl; intros Hnd Hin Hk; [contradiction|].
  inversion Hnd as [|? ? Hx Hl]; subst.
  destruct Hin as [->|Hin].
  - now rewrite String.eqb_refl.
  - destruct (String.eqb_spec (key x) (key opt)) as [Heq|Hne].
    + exfalso. apply Hx. rewrite Heq. now apply in_map.
    + now apply IH.
Qed.

Lemma stored_values_flag nm calls :
  (forall v, In (nm, v) calls -> v = None) ->
  stored_values nm (map (fun c => Store (fst c) (snd c)) calls) = [].
Proof.
  induction calls as [|[k v] calls IH]; intros H; [reflexivity|].
  simpl. rewrite IH by (intros w Hw; apply H; now right).
  destruct v as [s|]; [|reflexivity].
  destruct (String.eqb_spec k nm) as [->|Hne]; [|reflexivity].
  specialize (H (Some s) (or_introl eq_refl)). discriminate.
Qed.

(** A run of the parser on the reference collaborators that the examples
    below refer to: [--foo] given twice. *)
Lemma foo_twice_returns :
  exists rc fin,
    prte_cmd_line_parse (E := reference) 3
      ["prog"; "--foo"; "a"; "--foo"; "b"] "hV" foo_table None ocon
      "help.txt" boot = Ok (rc, fin).
Proof.
  assert (Hobs :
    observe (prte_cmd_line_parse (E := reference) 3
               ["prog"; "--foo"; "a"; "--foo"; "b"] "hV" foo_table None ocon
               "help.txt" boot)
    = Ok (PRTE_SUCCESS,
          {| instances := [{| key := "foo"; values := ["a"; "b"] |}];
             tail := None |},
          [Store "foo" (Some "a"); Store "foo" (Some "b")],
          5)) by (vm_compute; reflexivity).
  destruct (prte_cmd_line_parse (E := reference) 3
              ["prog"; "--foo"; "a"; "--foo"; "b"] "hV" foo_table None ocon
              "help.txt" boot)
    as [[rc fin]| |]; try discriminate Hobs.
  now exists rc, fin.
Qed.

(** Another such run: [--foo x] followed by [-V]. *)
Lemma foo_then_version_returns :
  exists fin,
    prte_cmd_line_parse (E := reference) 2 ["prog"; "--foo"; "x"; "-V"]
      "hV" foo_table None ocon "help.txt" boot
    = Ok (PRTE_ERR_SILENT, fin) /\
    trace fin = [Store "foo" (Some "x"); Printf "[help.txt:version]"].
Proof.
  assert (Hobs :
    observe (prte_cmd_line_parse (E := reference) 2
               ["prog"; "--foo"; "x"; "-V"] "hV" foo_table None ocon
               "help.txt" boot)
    = Ok (PRTE_ERR_SILENT,
          {| instances := [{| key := "foo"; values := ["x"] |}];
             tail := None |},
          [Store "foo" (Some "x"); Printf "[help.txt:version]"],
          4)) by (vm_compute; reflexivity).
  destruct (prte_cmd_line_parse (E := reference) 2
              ["prog"; "--foo"; "x"; "-V"] "hV" foo_table None ocon
              "help.txt" boot)
    as [[rc fin]| |]; try discriminate Hobs.
  unfold observe in Hobs. cbn [bind fst snd] in Hobs.
  injection Hobs as -> _ Htrace _.
  now exists fin.
Qed.

(** ** The properties the specification states *)

(** C1, as amended.  The claim holds for the long options that have no
    short code of their own, those the scanner reports as a long-option
    match with the code 0; an entry that carries a short code is reported
    by that code and goes through the default case, which does not join
    tokens.  For a long option [nm] of the first kind that ends in [mca]
    and takes a required argument, on the arguments [prog --nm k v]: the
    scanner reports a long-option match with argument [k] and the cursor
    behind [k]; the parser then makes one call of the store callback, with
    the key [nm] and the single value [k=v], moves the cursor behind [v]
    as well, and only then calls the scanner again.  The run ends with
    success, the cursor at 4 and, from a fresh result, exactly one item:
    [nm] with the one value [k=v].  ([k] is an argument like the [key] of
    the example, none of the help literals.) *)
Theorem mca_option_joins_two_tokens {E : Externals} :
  forall (shorts : string) (myoptions : list option_t) (helpfile : string)
         (storefn : option prte_cmd_line_store_fn_t)
         (results : prte_cli_result_t) (g : getopt_t scan_priv)
         (idx : Z) (o : option_t) (nm k v : string) (fuel : nat),
  let pargv := ["prog"; ("--" ++ nm)%string; k; v] in
  pmix_argv_copy_strip pargv = pargv ->
  option_at myoptions idx = Ok o ->
  name o = nm ->
  has_arg o = PRTE_ARG_REQD ->
  endswith (Some nm) (Some "mca") = PRTE_SUCCESS ->
  long_help_directive k = false ->
  let r1 := first_scan pargv shorts myoptions g in
  long_match r1 idx (Some k) 3 pargv ->
  exhausted (next_scan 4 pargv shorts myoptions (with_optind 4 (ret_state r1)))
    4 pargv ->
  observe (prte_cmd_line_parse (S (S fuel)) pargv shorts myoptions storefn
             results helpfile g)
  = Ok (PRTE_SUCCESS,
        mystore_of storefn nm (Some (k ++ "=" ++ v)%string) results,
        [Store nm (Some (k ++ "=" ++ v)%string)],
        4)
  /\ check_store nm (Some (k ++ "=" ++ v)%string) ocon
     = {| instances := [{| key := nm; values := [(k ++ "=" ++ v)%string] |}];
          tail := None |}.
Proof.
  intros shorts myoptions helpfile storefn results g idx o nm k v fuel pargv
    Hq Ho Hn _ He Hh r1 Hm Hx.
  split; [|reflexivity].
  rewrite parse_entry by exact Hq.
  rewrite loop_mca with (idx := idx) (o := o) (arg := Some k) (next := 3)
    (av := pargv) (a := k) (b := v);
    try assumption; try reflexivity; [|now rewrite Hn].
  destruct Hm as (_ & _ & _ & Hi & Hv).
  destruct Hx as (Hr2 & Hi2 & Hv2).
  match goal with
  | |- observe (parse_loop _ _ _ _ _ _ ?s) = _ => set (st2 := s)
  end.
  assert (Hs2 : getopt_long (pmix_argv_count pargv) (argv st2) shorts
                  myoptions (scanner st2)
                = next_scan 4 pargv shorts myoptions
                    (with_optind 4 (ret_state r1))).
  { unfold st2, next_scan, r1, first_scan in *. simpl. rewrite Hv.
    reflexivity. }
  rewrite loop_exhausted by (rewrite Hs2; exact Hr2).
  rewrite Hs2. unfold finish, observe. simpl. rewrite Hi2. simpl.
  now rewrite Hi2, Hn.
Qed.

Lemma mca_option_witness :
  observe (prte_cmd_line_parse (E := reference) 2
             ["prog"; "--myplugin_mca"; "key"; "value"] "hV" myplugin_table
             None ocon "help.txt" boot)
  = Ok (PRTE_SUCCESS,
        {| instances := [{| key := "myplugin_mca";
                            values := ["key=value"] |}];
           tail := None |},
        [Store "myplugin_mca" (Some "key=value")],
        4).
Proof.
  refine (proj1 (mca_option_joins_two_tokens (E := reference) "hV"
                   myplugin_table "help.txt" None ocon boot 0
                   {| name := "myplugin_mca"; has_arg := PRTE_ARG_REQD;
                      flag := None; val := 0 |}
                   "myplugin_mca" "key" "value" 0%nat
                   _ _ _ _ _ _ _ _));
    try reflexivity; repeat split.
Defined.

(** C1 as stated fails for a long option that carries a short code.  The
    entry [p_mca] ends in [mca], takes a required argument and has the
    code [p]; on [prog --p_mca key value] the scanner reports the code
    [p], the default case stores [key] alone, the cursor stays at 3 and
    [value] is left for the tail. *)
Lemma mca_option_with_short_code_counterexample :
  endswith (Some "p_mca") (Some "mca") = PRTE_SUCCESS /\
  Forall (fun o => has_arg o = PRTE_ARG_REQD) pmca_table /\
  map name pmca_table = ["p_mca"] /\
  observe (prte_cmd_line_parse (E := reference) 2
             ["prog"; "--p_mca"; "key"; "value"] "p:" pmca_table None ocon
             "help.txt" boot)
  = Ok (PRTE_SUCCESS,
        {| instances := [{| key := "p_mca"; values := ["key"] |}];
           tail := Some ["value"] |},
        [Store "p_mca" (Some "key"); AssignTail ["value"]],
        3) /\
  ["key"] <> ["key=value"] /\
  3 <> 4.
Proof.
  split; [reflexivity|].
  split; [repeat constructor|].
  split; [reflexivity|].
  split; [vm_compute; reflexivity|].
  split; discriminate.
Qed.

(** C2.  [check_store] keeps the keys of [instances] unique.  A call for
    a key that is present updates the first item that carries it, in place:
    the value is added at the end of its values, and nothing changes when
    there is no value.  A call for a key that is absent appends a new item,
    holding the value if there is one.  So the key of a call is present
    afterwards; a key that is stored without a value, and was not stored
    with one before, has an item with no values; and keys that were unique
    before a call, a succession of calls or a run of the parser with
    this callback are unique after it, as they are in every result built
    up from a fresh one. *)
Theorem check_store_keeps_keys_unique {E : Externals} :
  (forall nm v r l1 opt l2,
     instances r = (l1 ++ opt :: l2)%list ->
     key opt = nm -> ~ In nm (keys l1) ->
     instances (check_store nm v r)
     = (l1 ++ append_value opt v :: l2)%list /\
     tail (check_store nm v r) = tail r /\
     append_value opt None = opt /\
     (forall s, append_value opt (Some s)
                = {| key := key opt; values := values opt ++ [s] |})) /\
  (forall nm v r,
     ~ In nm (keys (instances r)) ->
     instances (check_store nm v r)
     = (instances r ++ [{| key := nm; values := opt_list v |}])%list) /\
  (forall nm v r, In nm (keys (instances (check_store nm v r)))) /\
  (forall nm r,
     values_of nm (check_store nm None r) = values_of nm r /\
     (~ In nm (keys (instances r)) ->
      In {| key := nm; values := [] |} (instances (check_store nm None r)))) /\
  (forall nm calls r,
     NoDup (keys (instances r)) ->
     values_of nm r = [] ->
     In (nm, None) calls ->
     (forall v, In (nm, v) calls -> v = None) ->
     In nm (keys (instances (store_all calls r))) /\
     forall opt,
       In opt (instances (store_all calls r)) -> key opt = nm ->
       values opt = []) /\
  (forall nm v r,
     NoDup (keys (instances r)) ->
     NoDup (keys (instances (check_store nm v r)))) /\
  (forall calls, NoDup (keys (instances (store_all calls ocon)))) /\
  (forall fuel pargv shorts myoptions results0 helpfile g rc fin,
     prte_cmd_line_parse fuel pargv shorts myoptions None results0
       helpfile g = Ok (rc, fin) ->
     NoDup (keys (instances results0)) ->
     NoDup (keys (instances (results fin)))).
Proof.
  split; [|split; [|split; [|split; [|split; [|split; [|split]]]]]].
  - intros nm v r l1 opt l2 Hr Hk Hn. split; [|split; [|split]].
    + simpl. rewrite Hr. now apply check_store_list_found.
    + reflexivity.
    + reflexivity.
    + reflexivity.
  - intros nm v r Hn. simpl. now apply check_store_list_new.
  - intros nm v r. simpl. apply in_keys_check_store_list.
  - intros nm r. split.
    + rewrite values_of_check_store_same. apply app_nil_r.
    + intros Hn. simpl. rewrite check_store_list_new by assumption.
      apply in_or_app. right. now left.
  - intros nm calls r Hnd Hv Hin Hflag. split.
    + rewrite store_all_replay.
      apply stored_key_present with (v := None).
      apply in_map_iff. exists (nm, None). now split.
    + intros opt Ho Hk.
      assert (Hf := find_item_unique nm _ opt
                      (store_all_NoDup calls r Hnd) Ho Hk).
      assert (Hvs : values_of nm (store_all calls r) = values opt).
      { unfold values_of. now rewrite Hf. }
      rewrite <- Hvs, store_all_replay, values_of_replay, Hv.
      now rewrite stored_values_flag.
  - intros nm v r H. simpl. now apply check_store_list_NoDup.
  - intros calls. apply store_all_NoDup. constructor.
  - intros fuel pargv shorts myoptions results0 helpfile g rc fin H Hnd.
    apply parse_run in H. destruct H as (stores & final & _ & _ & Hr & _).
    rewrite Hr. now apply replay_NoDup.
Qed.

Lemma check_store_witness :
  (In "verbose"
     (keys (instances
        (store_all [("np", Some "4"); ("verbose", None); ("np", Some "8");
                    ("verbose", None)] ocon))) /\
   forall opt,
     In opt (instances
       (store_all [("np", Some "4"); ("verbose", None); ("np", Some "8");
                   ("verbose", None)] ocon)) ->
     key opt = "verbose" -> values opt = []) /\
  NoDup (keys (instances
     (check_store "np" (Some "8")
        {| instances := [{| key := "np"; values := ["4"] |}];
           tail := None |}))) /\
  instances
    (check_store "np" (Some "8")
       {| instances := [{| key := "np"; values := ["4"] |}];
          tail := None |})
  = [{| key := "np"; values := ["4"; "8"] |}] /\
  instances
    (check_store "verbose" None
       {| instances := [{| key := "np"; values := ["4"] |}];
          tail := None |})
  = [{| key := "np"; values := ["4"] |};
     {| key := "verbose"; values := [] |}] /\
  (exists rc fin,
     prte_cmd_line_parse (E := reference) 3
       ["prog"; "--foo"; "a"; "--foo"; "b"] "hV" foo_table None ocon
       "help.txt" boot = Ok (rc, fin) /\
     NoDup (keys (instances (results fin)))).
Proof.
  destruct (check_store_keeps_keys_unique (E := reference))
    as (Hfound & Hnew & _ & _ & Hflag & Hnd & _ & Hrun).
  split; [|split; [|split; [|split]]].
  - apply Hflag.
    + constructor.
    + reflexivity.
    + simpl. tauto.
    + intros v Hin. simpl in Hin.
      destruct Hin as [Hin|[Hin|[Hin|[Hin|[]]]]];
        try discriminate; now inversion Hin.
  - apply Hnd. simpl. repeat constructor. simpl. tauto.
  - apply (Hfound "np" (Some "8")
             {| instances := [{| key := "np"; values := ["4"] |}];
                tail := None |}
             [] {| key := "np"; values := ["4"] |} []).
    + reflexivity.
    + reflexivity.
    + simpl. tauto.
  - apply (Hnew "verbose" None
             {| instances := [{| key := "np"; values := ["4"] |}];
                tail := None |}).
    simpl. intros [H|[]]. discriminate.
  - destruct foo_twice_returns as (rc & fin & H).
    exists rc, fin. split; [exact H|].
    apply Hrun in H; [exact H | constructor].
Defined.

(** C3.  What the parser does with a long option whose argument is one
    of the literals [--help], [-help], [help], [h], [-h].  When the scanner
    reports a long-option match (the entry has no short code of its own),
    the parser prints the help topic named after the matched option and
    returns [PRTE_ERR_SILENT] in that very pass, without a call of the
    store callback and with the results as they were; so for [--foo] with
    a required argument and the arguments [prog --foo help], the topic
    [foo] is printed, the run is silent-error and a fresh result holds no
    item.  A long option that carries a short code is reported by that
    code and goes through the default case, whose test of lines 313-314
    lacks [-help]: on [prog --xopt -help], with [xopt] carrying the code
    of [x:], no help is printed, the option is stored with [-help] as its
    value and the run ends with success. *)
Theorem long_option_help_directive_misses_dash_help {E : Externals} :
  forall (myoptions : list option_t) (helpfile : string),
  (forall shorts mystore argc fuel st idx o a next av,
     let r := getopt_long argc (argv st) shorts myoptions (scanner st) in
     long_match r idx (Some a) next av ->
     option_at myoptions idx = Ok o ->
     In a ["--help"; "-help"; "help"; "h"; "-h"] ->
     exists fin,
       parse_loop shorts myoptions mystore helpfile argc (S fuel) st
       = Ok (PRTE_ERR_SILENT, fin) /\
       results fin = results st /\
       scanner fin = ret_state r /\
       trace fin
       = (trace st ++ print_help helpfile (name o) false [])%list) /\
  (forall fuel shorts storefn results g idx o,
     let pargv := ["prog"; "--foo"; "help"] in
     pmix_argv_copy_strip pargv = pargv ->
     option_at myoptions idx = Ok o ->
     name o = "foo" ->
     has_arg o = PRTE_ARG_REQD ->
     long_match (first_scan pargv shorts myoptions g) idx (Some "help") 3
       pargv ->
     observe (prte_cmd_line_parse (S fuel) pargv shorts myoptions storefn
                results helpfile g)
     = Ok (PRTE_ERR_SILENT, results, print_help helpfile "foo" false [], 3)
     /\ (results = ocon -> ~ In "foo" (keys (instances results)))) /\
  (forall storefn results g o fuel,
     let pargv := ["prog"; "--xopt"; "-help"] in
     pmix_argv_copy_strip pargv = pargv ->
     find_val (char_to_int "x") myoptions = Some o ->
     name o = "xopt" ->
     has_arg o = PRTE_ARG_REQD ->
     let r1 := first_scan pargv "x:" myoptions g in
     short_match r1 (char_to_int "x") (Some "-help") 3 pargv ->
     exhausted (next_scan 3 pargv "x:" myoptions (ret_state r1)) 3 pargv ->
     observe (prte_cmd_line_parse (S (S fuel)) pargv "x:" myoptions
                storefn results helpfile g)
     = Ok (PRTE_SUCCESS,
           mystore_of storefn "xopt" (Some "-help") results,
           [Store "xopt" (Some "-help")],
           3)).
Proof.
  intros myoptions helpfile.
  assert (Hlit : forall a, In a ["--help"; "-help"; "help"; "h"; "-h"] ->
                           long_help_directive a = true).
  { intros a Ha. simpl in Ha.
    destruct Ha as [<-|[<-|[<-|[<-|[<-|[]]]]]]; reflexivity. }
  split; [|split].
  - intros shorts mystore argc fuel st idx o a next av r Hm Ho Ha.
    eexists. split.
    + eapply loop_long_help; [exact Hm | exact Ho | now apply Hlit].
    + repeat split.
  - intros fuel shorts storefn results g idx o pargv Hq Ho Hn _ Hm.
    split; [|intros ->; simpl; tauto].
    rewrite parse_entry by exact Hq.
    erewrite loop_long_help; [|exact Hm|exact Ho|reflexivity].
    destruct Hm as (_ & _ & _ & Hi & _).
    unfold observe, first_scan in *. simpl in *. now rewrite Hi, Hn.
  - intros storefn results g o fuel pargv Hq Hf Hn Hreq r1 Hm Hx.
    rewrite parse_entry by exact Hq.
    destruct Hm as (Hr & Ha & Hi & Hv).
    destruct Hx as (Hr2 & Hi2 & Hv2).
    rewrite loop_short_store with (code := char_to_int "x") (after := ":")
      (ptr := Some "-help") (o := o);
      try assumption; try reflexivity; try discriminate;
      [ | now left
        | unfold short_argument; cbn [scanner scanned]; apply f_equal;
          exact Ha ].
    match goal with
    | |- observe (parse_loop _ _ _ _ _ _ ?s) = _ => set (st2 := s)
    end.
    assert (Hs2 : getopt_long (pmix_argv_count pargv) (argv st2) "x:"
                    myoptions (scanner st2)
                  = next_scan 3 pargv "x:" myoptions (ret_state r1)).
    { unfold st2, next_scan, r1, first_scan in *. simpl. rewrite Hv.
      reflexivity. }
    rewrite loop_exhausted by (rewrite Hs2; exact Hr2).
    rewrite Hs2. unfold finish, observe, next_scan in *. simpl.
    rewrite Hi2. simpl. rewrite ?Hi2, Hn, Hreq. reflexivity.
Qed.

Lemma long_option_dash_help_witness :
  (exists fin,
     parse_loop (E := reference) "hV" foo_table check_store "help.txt" 3 1
       (entry (E := reference) ["prog"; "--foo"; "-help"] ocon boot)
     = Ok (PRTE_ERR_SILENT, fin) /\
     results fin = ocon /\ trace fin = [Printf "[help.txt:foo]"]) /\
  (observe (prte_cmd_line_parse (E := reference) 1 ["prog"; "--foo"; "help"]
              "hV" foo_table None ocon "help.txt" boot)
   = Ok (PRTE_ERR_SILENT, ocon, [Printf "[help.txt:foo]"], 3)
   /\ ~ In "foo" (keys (instances ocon))) /\
  observe (prte_cmd_line_parse (E := reference) 2
             ["prog"; "--xopt"; "-help"] "x:" xopt_table None ocon
             "help.txt" boot)
  = Ok (PRTE_SUCCESS,
        {| instances := [{| key := "xopt"; values := ["-help"] |}];
           tail := None |},
        [Store "xopt" (Some "-help")],
        3).
Proof.
  destruct (long_option_help_directive_misses_dash_help (E := reference)
              foo_table "help.txt") as (H1 & H2 & _).
  destruct (long_option_help_directive_misses_dash_help (E := reference)
              xopt_table "help.txt") as (_ & _ & H3).
  split; [|split].
  - destruct (H1 "hV" check_store 3 0%nat
                (entry (E := reference) ["prog"; "--foo"; "-help"] ocon boot)
                0
                {| name := "foo"; has_arg := PRTE_ARG_REQD; flag := None;
                   val := 0 |}
                "-help" 3 ["prog"; "--foo"; "-help"])
      as (fin & Hrun & Hres & _ & Htr).
    + repeat split.
    + reflexivity.
    + simpl. tauto.
    + exists fin. split; [exact Hrun|]. split; [exact Hres | exact Htr].
  - destruct (H2 0%nat "hV" None ocon boot 0
                {| name := "foo"; has_arg := PRTE_ARG_REQD; flag := None;
                   val := 0 |}) as [Ha Hb]; try reflexivity.
    + repeat split.
    + split; [exact Ha | now apply Hb].
  - refine (H3 None ocon boot
              {| name := "xopt"; has_arg := PRTE_ARG_REQD; flag := None;
                 val := char_to_int "x" |} 0%nat _ _ _ _ _ _);
      try reflexivity; repeat split.
Defined.

(** C4.  With the default callback, the values a finished run leaves
    under a key are the values the key had before, followed by the
    arguments stored for the key during the run, in the order in which the
    loop met them; a single store with an argument appends it at the end.
    So when the scanner reports [--foo a] and then [--foo b] from the
    arguments [prog --foo a --foo b], the values of [foo] are [a] and then
    [b]. *)
Theorem values_keep_command_line_order {E : Externals} :
  forall (shorts : string) (myoptions : list option_t) (helpfile : string),
  (forall nm v r,
     values_of nm (check_store nm (Some v) r)
     = (values_of nm r ++ [v])%list) /\
  (forall fuel pargv results0 g rc fin k,
     prte_cmd_line_parse fuel pargv shorts myoptions None results0
       helpfile g = Ok (rc, fin) ->
     values_of k (results fin)
     = (values_of k results0 ++ stored_values k (trace fin))%list) /\
  (forall fuel g idx o a b,
     let pargv := ["prog"; "--foo"; a; "--foo"; b] in
     pmix_argv_copy_strip pargv = pargv ->
     option_at myoptions idx = Ok o ->
     name o = "foo" ->
     has_arg o = PRTE_ARG_REQD \/ has_arg o = PRTE_ARG_OPTIONAL ->
     long_help_directive a = false ->
     long_help_directive b = false ->
     let r1 := first_scan pargv shorts myoptions g in
     long_match r1 idx (Some a) 3 pargv ->
     let r2 := next_scan 5 pargv shorts myoptions (ret_state r1) in
     long_match r2 idx (Some b) 5 pargv ->
     exhausted (next_scan 5 pargv shorts myoptions (ret_state r2)) 5 pargv ->
     observe (prte_cmd_line_parse (S (S (S fuel))) pargv shorts myoptions
                None ocon helpfile g)
     = Ok (PRTE_SUCCESS,
           {| instances := [{| key := "foo"; values := [a; b] |}];
              tail := None |},
           [Store "foo" (Some a); Store "foo" (Some b)],
           5)).
Proof.
  intros shorts myoptions helpfile. split; [|split].
  - intros nm v r. apply values_of_check_store_same.
  - intros fuel pargv results0 g rc fin k H.
    apply parse_run in H.
    destruct H as (stores & final & Ht & _ & Hr & _).
    rewrite Hr, Ht. apply values_of_replay.
  - intros fuel g idx o a b pargv Hq Ho Hn _ Ha Hb r1 Hm1 r2 Hm2 Hx.
    rewrite parse_entry by exact Hq.
    rewrite loop_long_store with (idx := idx) (o := o) (arg := Some a)
      (next := 3) (av := pargv);
      try assumption; [|rewrite Hn; discriminate].
    pose proof Hm1 as (_ & _ & _ & Hi1 & Hv1).
    match goal with
    | |- observe (parse_loop _ _ _ _ _ _ ?s) = _ => set (st2 := s)
    end.
    assert (Hs2 : getopt_long (pmix_argv_count pargv) (argv st2) shorts
                    myoptions (scanner st2) = r2).
    { unfold st2, r2, next_scan, r1, first_scan in *. simpl. rewrite Hv1.
      reflexivity. }
    rewrite loop_long_store with (idx := idx) (o := o) (arg := Some b)
      (next := 5) (av := pargv);
      try assumption; [| now rewrite Hs2 | rewrite Hn; discriminate].
    pose proof Hm2 as (_ & _ & _ & Hi2 & Hv2).
    rewrite Hs2.
    match goal with
    | |- observe (parse_loop _ _ _ _ _ _ ?s) = _ => set (st3 := s)
    end.
    destruct Hx as (Hr3 & Hi3 & Hv3).
    assert (Hs3 : getopt_long (pmix_argv_count pargv) (argv st3) shorts
                    myoptions (scanner st3)
                  = next_scan 5 pargv shorts myoptions (ret_state r2)).
    { unfold st3, next_scan. simpl. rewrite Hv2. reflexivity. }
    rewrite loop_exhausted by (rewrite Hs3; exact Hr3).
    rewrite Hs3. unfold finish, observe, next_scan in *. simpl.
    rewrite Hi3. simpl. rewrite ?Hi3, Hn. simpl. reflexivity.
Qed.

Lemma values_order_witness :
  observe (prte_cmd_line_parse (E := reference) 3
             ["prog"; "--foo"; "a"; "--foo"; "b"] "hV" foo_table None ocon
             "help.txt" boot)
  = Ok (PRTE_SUCCESS,
        {| instances := [{| key := "foo"; values := ["a"; "b"] |}];
           tail := None |},
        [Store "foo" (Some "a"); Store "foo" (Some "b")],
        5)
  /\ (exists rc fin,
        prte_cmd_line_parse (E := reference) 6
          ["prog"; "-x"; "1"; "--foo"; "a"; "-x"; "2"; "--foo=b"; "pos"]
          "hVx:" (foo_table ++ xopt_table) None ocon "help.txt" boot
        = Ok (rc, fin) /\
        values_of "xopt" (results fin) = ["1"; "2"] /\
        values_of "foo" (results fin) = ["a"; "b"]).
Proof.
  split.
  - refine (proj2 (proj2 (values_keep_command_line_order (E := reference)
                            "hV" foo_table "help.txt"))
              0%nat boot 0
              {| name := "foo"; has_arg := PRTE_ARG_REQD; flag := None;
                 val := 0 |} "a" "b" _ _ _ _ _ _ _ _ _);
      try reflexivity; try (now left); repeat split.
  - assert (Hobs :
      observe (prte_cmd_line_parse (E := reference) 6
                 ["prog"; "-x"; "1"; "--foo"; "a"; "-x"; "2"; "--foo=b";
                  "pos"]
                 "hVx:" (foo_table ++ xopt_table) None ocon "help.txt" boot)
      = Ok (PRTE_SUCCESS,
            {| instances := [{| key := "xopt"; values := ["1"; "2"] |};
                             {| key := "foo"; values := ["a"; "b"] |}];
               tail := Some ["pos"] |},
            [Store "xopt" (Some "1"); Store "foo" (Some "a");
             Store "xopt" (Some "2"); Store "foo" (Some "b");
             AssignTail ["pos"]],
            8)) by (vm_compute; reflexivity).
    destruct (prte_cmd_line_parse (E := reference) 6
                ["prog"; "-x"; "1"; "--foo"; "a"; "-x"; "2"; "--foo=b";
                 "pos"]
                "hVx:" (foo_table ++ xopt_table) None ocon "help.txt" boot)
      as [[rc fin]| |] eqn:Hfin; try discriminate Hobs.
    exists rc, fin. split; [reflexivity|].
    unfold observe in Hobs. cbn [bind fst snd] in Hobs.
    injection Hobs as _ _ Htrace _.
    destruct (values_keep_command_line_order (E := reference) "hVx:"
                (foo_table ++ xopt_table) "help.txt") as (_ & H & _).
    split.
    + rewrite (H _ _ _ _ _ _ "xopt" Hfin), Htrace. reflexivity.
    + rewrite (H _ _ _ _ _ _ "foo" Hfin), Htrace. reflexivity.
Defined.

(** C5.  In every finished run the parser assigns [results->tail] once
    when it returns [PRTE_SUCCESS] with the cursor short of [argc], and not
    at all otherwise, so never on a silent-error exit.  The assignment is
    the last action of the run and its value is the rest of the argument
    vector from the cursor on; in the other runs the default callback
    leaves the tail as the caller passed it.  In particular, for the
    arguments [prog positional1 positional2], of which the scanner matches
    none, the run is a success with the tail [positional1 positional2] and
    no item in a fresh result. *)
Theorem tail_assigned_once_on_success {E : Externals} :
  forall (shorts : string) (myoptions : list option_t) (helpfile : string),
  (forall fuel pargv storefn results0 g rc fin,
     prte_cmd_line_parse fuel pargv shorts myoptions storefn results0
       helpfile g = Ok (rc, fin) ->
     let argc := pmix_argv_count (pmix_argv_copy_strip pargv) in
     let t := pmix_argv_copy_from (argv fin) (optind (scanner fin)) in
     tail_assignments (trace fin)
     = (if status_eqb rc PRTE_SUCCESS && (optind (scanner fin) <? argc)
        then 1%nat else 0%nat) /\
     (rc = PRTE_SUCCESS -> optind (scanner fin) < argc ->
      tail (results fin) = Some t /\
      exists stores,
        Forall is_store stores /\
        trace fin = (stores ++ [AssignTail t])%list) /\
     (storefn = None ->
      rc = PRTE_ERR_SILENT \/ argc <= optind (scanner fin) ->
      tail (results fin) = tail results0)) /\
  (forall fuel storefn g,
     let pargv := ["prog"; "positional1"; "positional2"] in
     pmix_argv_copy_strip pargv = pargv ->
     exhausted (first_scan pargv shorts myoptions g) 1 pargv ->
     observe (prte_cmd_line_parse (S fuel) pargv shorts myoptions storefn
                ocon helpfile g)
     = Ok (PRTE_SUCCESS,
           {| instances := [];
              tail := Some ["positional1"; "positional2"] |},
           [AssignTail ["positional1"; "positional2"]],
           1)).
Proof.
  intros shorts myoptions helpfile. split.
  - intros fuel pargv storefn results0 g rc fin H argc t.
    apply parse_run in H.
    destruct H as (stores & final & Ht & Hs & Hr & Hc).
    fold argc in Hc. fold t in Hc.
    assert (Hts : tail_assignments (trace fin) = tail_assignments final).
    { rewrite Ht, tail_assignments_app, tail_assignments_store; auto. }
    destruct Hc as [(-> & Hp)|[(-> & -> & Hge)|(-> & -> & Hlt)]].
    + split; [|split].
      * rewrite Hts. cbn [status_eqb andb]. now apply tail_assignments_printf.
      * discriminate.
      * intros -> _. rewrite Hr, replay_app.
        rewrite (replay_printf _ _ Hp). now apply tail_replay_store.
    + split; [|split].
      * rewrite Hts. cbn [status_eqb andb].
        destruct (Z.ltb_spec (optind (scanner fin)) argc);
          [lia | reflexivity].
      * intros _ Hlt. lia.
      * intros -> _. rewrite Hr, app_nil_r. now apply tail_replay_store.
    + split; [|split].
      * rewrite Hts. cbn [status_eqb andb].
        destruct (Z.ltb_spec (optind (scanner fin)) argc);
          [reflexivity | lia].
      * intros _ _. split.
        -- rewrite Hr, replay_app. reflexivity.
        -- exists stores. now split.
      * intros _ [Hd|Hge]; [discriminate | lia].
  - intros fuel storefn g pargv Hq (Hr & Hi & Hv).
    rewrite parse_entry by exact Hq.
    rewrite loop_exhausted by exact Hr.
    unfold finish, observe, first_scan in *. simpl. rewrite Hi, Hv. simpl.
    now rewrite ?Hi, ?Hv.
Qed.

Lemma tail_assigned_witness :
  observe (prte_cmd_line_parse (E := reference) 1
             ["prog"; "positional1"; "positional2"] "hV" foo_table None
             ocon "help.txt" boot)
  = Ok (PRTE_SUCCESS,
        {| instances := []; tail := Some ["positional1"; "positional2"] |},
        [AssignTail ["positional1"; "positional2"]],
        1)
  /\ (exists fin,
        prte_cmd_line_parse (E := reference) 2 ["prog"; "--foo"; "x"; "-V"]
          "hV" foo_table None ocon "help.txt" boot
        = Ok (PRTE_ERR_SILENT, fin) /\
        tail_assignments (trace fin) = 0%nat /\ tail (results fin) = None).
Proof.
  destruct (tail_assigned_once_on_success (E := reference) "hV" foo_table
              "help.txt") as [H1 H2].
  split.
  - apply (H2 0%nat None boot); [reflexivity | repeat split].
  - destruct foo_then_version_returns as (fin & Hfin & _).
    exists fin. split; [exact Hfin|].
    apply H1 in Hfin. destruct Hfin as (Ha & _ & Hb). split.
    + exact Ha.
    + apply Hb; [reflexivity | now left].
Defined.

(** C6.  For a code that [shorts] declares with two colons, the argument
    handed to the store callback is the text of the token at [optind - 1]
    that follows its first two characters, whatever argument the scanner
    reports and whatever tokens stand elsewhere; the pass leaves the cursor
    where the scanner put it.  A value separated by a space is not taken:
    on [prog -z foo] the option is stored with the empty remainder of
    [-z], and [foo] is left over for the tail. *)
Theorem optional_short_argument_is_attached {E : Externals} :
  forall (myoptions : list option_t) (helpfile : string),
  (forall shorts mystore argc fuel st code arg next av rest tok ptr o,
     let r := getopt_long argc (argv st) shorts myoptions (scanner st) in
     short_match r code arg next av ->
     default_code code ->
     at_option av (optind (scanner st)) ->
     find_short code shorts = Some (String ":" (String ":" rest)) ->
     argv_at av (next - 1) = Ok (Some tok) ->
     skip2 tok = Ok ptr ->
     find_val code myoptions = Some o ->
     has_arg o <> PRTE_ARG_NONE ->
     short_help_directive ptr = false ->
     parse_loop shorts myoptions mystore helpfile argc (S fuel) st
     = parse_loop shorts myoptions mystore helpfile argc fuel
         (call_store mystore (name o) (Some ptr) (scanned r st))) /\
  (forall shorts storefn results g rest o fuel,
     let pargv := ["prog"; "-z"; "foo"] in
     pmix_argv_copy_strip pargv = pargv ->
     find_short (char_to_int "z") shorts
     = Some (String ":" (String ":" rest)) ->
     find_val (char_to_int "z") myoptions = Some o ->
     has_arg o <> PRTE_ARG_NONE ->
     let r1 := first_scan pargv shorts myoptions g in
     short_match r1 (char_to_int "z") None 2 pargv ->
     exhausted (next_scan 3 pargv shorts myoptions (ret_state r1)) 2 pargv ->
     observe (prte_cmd_line_parse (S (S fuel)) pargv shorts myoptions
                storefn results helpfile g)
     = Ok (PRTE_SUCCESS,
           {| instances :=
                instances (mystore_of storefn (name o) (Some "") results);
              tail := Some ["foo"] |},
           [Store (name o) (Some ""); AssignTail ["foo"]],
           2)).
Proof.
  intros myoptions helpfile.
  assert (Hstep : forall shorts mystore argc fuel st code arg next av rest
                         tok ptr o,
     short_match (getopt_long argc (argv st) shorts myoptions (scanner st))
       code arg next av ->
     default_code code ->
     at_option av (optind (scanner st)) ->
     find_short code shorts = Some (String ":" (String ":" rest)) ->
     argv_at av (next - 1) = Ok (Some tok) ->
     skip2 tok = Ok ptr ->
     find_val code myoptions = Some o ->
     has_arg o <> PRTE_ARG_NONE ->
     short_help_directive ptr = false ->
     parse_loop shorts myoptions mystore helpfile argc (S fuel) st
     = parse_loop shorts myoptions mystore helpfile argc fuel
         (call_store mystore (name o) (Some ptr)
            (scanned (getopt_long argc (argv st) shorts myoptions
                        (scanner st)) st))).
  { intros shorts mystore argc fuel st code arg next av rest tok ptr o
      (Hr & Ha & Hi & Hv) (H1 & H0 & Hh & HV) Hat Hs Htok Hskip Hf Hn Hd.
    rewrite loop_short_store with (code := code) (ptr := Some ptr) (o := o)
      (after := String ":" (String ":" rest)); try assumption.
    - apply Z.eqb_neq in Hn. now rewrite Hn.
    - now rewrite Hv.
    - unfold short_argument, argv_str.
      cbn [argv scanner scanned]. rewrite Hv, Hi, Htok.
      cbn [bind]. rewrite Hskip. reflexivity. }
  split.
  - intros shorts mystore argc fuel st code arg next av rest tok ptr o r.
    apply Hstep.
  - intros shorts storefn results g rest o fuel pargv Hq Hs Hf Hn r1 Hm Hx.
    rewrite parse_entry by exact Hq.
    rewrite Hstep with (code := char_to_int "z") (arg := None) (next := 2)
      (av := pargv) (rest := rest) (tok := "-z") (ptr := "") (o := o);
      try assumption; try reflexivity;
      [|repeat split; discriminate | now left].
    destruct Hm as (_ & _ & Hi & Hv).
    destruct Hx as (Hr2 & Hi2 & Hv2).
    match goal with
    | |- observe (parse_loop _ _ _ _ _ _ ?s) = _ => set (st2 := s)
    end.
    assert (Hs2 : getopt_long (pmix_argv_count pargv) (argv st2) shorts
                    myoptions (scanner st2)
                  = next_scan 3 pargv shorts myoptions (ret_state r1)).
    { unfold st2, next_scan, r1, first_scan in *. simpl. rewrite Hv.
      reflexivity. }
    rewrite loop_exhausted by (rewrite Hs2; exact Hr2).
    rewrite Hs2. unfold finish, observe, next_scan in *. simpl.
    rewrite Hi2, Hv2. simpl. now rewrite ?Hi2, ?Hv2.
Qed.

Lemma optional_short_argument_witness :
  observe (prte_cmd_line_parse (E := reference) 2 ["prog"; "-zfoo"]
             "hVz::" zed_table None ocon "help.txt" boot)
  = Ok (PRTE_SUCCESS,
        {| instances := [{| key := "zed"; values := ["foo"] |}];
           tail := None |},
        [Store "zed" (Some "foo")],
        2)
  /\ observe (prte_cmd_line_parse (E := reference) 2 ["prog"; "-z"; "foo"]
                "hVz::" zed_table None ocon "help.txt" boot)
     = Ok (PRTE_SUCCESS,
           {| instances := [{| key := "zed"; values := [""] |}];
              tail := Some ["foo"] |},
           [Store "zed" (Some ""); AssignTail ["foo"]],
           2).
Proof.
  destruct (optional_short_argument_is_attached (E := reference) zed_table
              "help.txt") as [H1 H2].
  split.
  - rewrite parse_entry by reflexivity.
    rewrite H1 with (code := char_to_int "z") (arg := Some "foo")
      (next := 2) (av := ["prog"; "-zfoo"]) (rest := "") (tok := "-zfoo")
      (ptr := "foo")
      (o := {| name := "zed"; has_arg := PRTE_ARG_OPTIONAL; flag := None;
               val := char_to_int "z" |});
      try reflexivity; try discriminate.
    + repeat split.
    + repeat split; discriminate.
    + now left.
  - refine (H2 "hVz::" None ocon boot ""
              {| name := "zed"; has_arg := PRTE_ARG_OPTIONAL; flag := None;
                 val := char_to_int "z" |} 0%nat _ _ _ _ _ _);
      try reflexivity; try discriminate; repeat split.
Defined.

(** C7.  What the default case does with a short option whose computed
    argument is a help literal.  For [--help], [-h], [help] and [h] it
    prints the help topic of the option and returns [PRTE_ERR_SILENT]
    without a call of the store callback.  For [-help], which the case of
    the long options accepts, it does not: the literal is missing from the
    test of lines 313-314, and the option is stored with [-help] as its
    value (or with none, for an entry without argument) and the loop goes
    on.  On [prog -x -help] with [x:] the run ends with success and the
    item [xopt] holding [-help]. *)
Theorem short_option_help_directive_misses_dash_help {E : Externals} :
  forall (myoptions : list option_t) (helpfile : string),
  (forall shorts mystore argc fuel st code after o,
     let r := getopt_long argc (argv st) shorts myoptions (scanner st) in
     ret r = code ->
     default_code code ->
     at_option (ret_argv r) (optind (scanner st)) ->
     find_short code shorts = Some after ->
     find_val code myoptions = Some o ->
     (forall ptr,
        short_argument after (scanned r st) = Ok (Some ptr) ->
        In ptr ["--help"; "-h"; "help"; "h"] ->
        exists fin,
          parse_loop shorts myoptions mystore helpfile argc (S fuel) st
          = Ok (PRTE_ERR_SILENT, fin) /\
          results fin = results st /\
          trace fin
          = (trace st ++ print_help helpfile (name o) true [])%list) /\
     (short_argument after (scanned r st) = Ok (Some "-help") ->
      parse_loop shorts myoptions mystore helpfile argc (S fuel) st
      = parse_loop shorts myoptions mystore helpfile argc fuel
          (call_store mystore (name o)
             (if has_arg o =? PRTE_ARG_NONE then None else Some "-help")
             (scanned r st)))) /\
  (forall storefn results g o fuel,
     let pargv := ["prog"; "-x"; "-help"] in
     pmix_argv_copy_strip pargv = pargv ->
     find_val (char_to_int "x") myoptions = Some o ->
     has_arg o = PRTE_ARG_REQD ->
     let r1 := first_scan pargv "x:" myoptions g in
     short_match r1 (char_to_int "x") (Some "-help") 3 pargv ->
     exhausted (next_scan 3 pargv "x:" myoptions (ret_state r1)) 3 pargv ->
     observe (prte_cmd_line_parse (S (S fuel)) pargv "x:" myoptions
                storefn results helpfile g)
     = Ok (PRTE_SUCCESS,
           mystore_of storefn (name o) (Some "-help") results,
           [Store (name o) (Some "-help")],
           3)).
Proof.
  intros myoptions helpfile.
  assert (Hstep : forall shorts mystore argc fuel st code after o,
     ret (getopt_long argc (argv st) shorts myoptions (scanner st)) = code ->
     default_code code ->
     at_option (ret_argv (getopt_long argc (argv st) shorts myoptions
                            (scanner st))) (optind (scanner st)) ->
     find_short code shorts = Some after ->
     find_val code myoptions = Some o ->
     short_argument after
       (scanned (getopt_long argc (argv st) shorts myoptions (scanner st)) st)
     = Ok (Some "-help") ->
     parse_loop shorts myoptions mystore helpfile argc (S fuel) st
     = parse_loop shorts myoptions mystore helpfile argc fuel
         (call_store mystore (name o)
            (if has_arg o =? PRTE_ARG_NONE then None else Some "-help")
            (scanned (getopt_long argc (argv st) shorts myoptions
                        (scanner st)) st))).
  { intros shorts mystore argc fuel st code after o Hr (H1 & H0 & Hh & HV)
      Hat Hs Hf Hp.
    now apply loop_short_store with (code := code) (after := after). }
  split.
  - intros shorts mystore argc fuel st code after o r Hr Hd Hat Hs Hf.
    split.
    + intros ptr Hp Hin. destruct Hd as (H1 & H0 & Hh & HV).
      eexists. split.
      * apply loop_short_help with (code := code) (after := after)
          (ptr := Some ptr) (o := o); try assumption.
        simpl in Hin. destruct Hin as [<-|[<-|[<-|[<-|[]]]]]; reflexivity.
      * split; reflexivity.
    + intros Hp. now apply Hstep with (code := code) (after := after).
  - intros storefn results g o fuel pargv Hq Hf Hn r1 Hm Hx.
    rewrite parse_entry by exact Hq.
    destruct Hm as (Hr & Ha & Hi & Hv).
    destruct Hx as (Hr2 & Hi2 & Hv2).
    rewrite Hstep with (code := char_to_int "x") (after := ":") (o := o);
      try assumption; try reflexivity;
      [ | repeat split; discriminate | now left
        | unfold short_argument; cbn [scanner scanned]; apply f_equal;
          exact Ha ].
    match goal with
    | |- observe (parse_loop _ _ _ _ _ _ ?s) = _ => set (st2 := s)
    end.
    assert (Hs2 : getopt_long (pmix_argv_count pargv) (argv st2) "x:"
                    myoptions (scanner st2)
                  = next_scan 3 pargv "x:" myoptions (ret_state r1)).
    { unfold st2, next_scan, r1, first_scan in *. simpl. rewrite Hv.
      reflexivity. }
    rewrite loop_exhausted by (rewrite Hs2; exact Hr2).
    rewrite Hs2. unfold finish, observe, next_scan in *. simpl.
    rewrite Hi2. simpl. rewrite ?Hi2, Hn. reflexivity.
Qed.

Lemma short_option_dash_help_witness :
  (exists fin,
     parse_loop (E := reference) "x:" xopt_table check_store "help.txt" 3 1
       (entry (E := reference) ["prog"; "-x"; "help"] ocon boot)
     = Ok (PRTE_ERR_SILENT, fin) /\
     results fin = ocon /\ trace fin = [Printf "[help.txt:xopt]"]) /\
  parse_loop (E := reference) "x:" xopt_table check_store "help.txt" 3 2
    (entry (E := reference) ["prog"; "-x"; "-help"] ocon boot)
  = parse_loop (E := reference) "x:" xopt_table check_store "help.txt" 3 1
      (call_store check_store "xopt" (Some "-help")
         (scanned
            (first_scan (E := reference) ["prog"; "-x"; "-help"] "x:"
               xopt_table boot)
            (entry (E := reference) ["prog"; "-x"; "-help"] ocon boot)))
  /\ observe (prte_cmd_line_parse (E := reference) 2
                ["prog"; "-x"; "-help"] "x:" xopt_table None ocon
                "help.txt" boot)
     = Ok (PRTE_SUCCESS,
           {| instances := [{| key := "xopt"; values := ["-help"] |}];
              tail := None |},
           [Store "xopt" (Some "-help")],
           3).
Proof.
  destruct (short_option_help_directive_misses_dash_help (E := reference)
              xopt_table "help.txt") as [H1 H2].
  split; [|split].
  - destruct (H1 "x:" check_store 3 0%nat
                (entry (E := reference) ["prog"; "-x"; "help"] ocon boot)
                (char_to_int "x") ":"
                {| name := "xopt"; has_arg := PRTE_ARG_REQD; flag := None;
                   val := char_to_int "x" |})
      as [Hhelp _]; try reflexivity.
    + repeat split; discriminate.
    + now left.
    + destruct (Hhelp "help") as (fin & Hrun & Hres & Htr).
      * reflexivity.
      * simpl. tauto.
      * exists fin. split; [exact Hrun|]. split; [exact Hres | exact Htr].
  - refine (proj2 (H1 "x:" check_store 3 1%nat
                     (entry (E := reference) ["prog"; "-x"; "-help"] ocon
                        boot)
                     (char_to_int "x") ":"
                     {| name := "xopt"; has_arg := PRTE_ARG_REQD;
                        flag := None; val := char_to_int "x" |}
                     _ _ _ _ _) _);
      try reflexivity; [repeat split; discriminate | now left].
  - refine (H2 None ocon boot
              {| name := "xopt"; has_arg := PRTE_ARG_REQD; flag := None;
                 val := char_to_int "x" |} 0%nat _ _ _ _ _);
      try reflexivity; repeat split.
Defined.

(** C8.  Whenever the scanner reports the code of [V], the parser prints
    the version topic of the help file and returns [PRTE_ERR_SILENT] in that
    very pass: one unit of fuel is enough whatever the scanner would report
    next, the results are left as they were and the scanner is not called
    again.  In particular, with the short options [hV] and the single token
    [-V] the run is silent-error with the version topic printed. *)
Theorem version_option_returns_at_once {E : Externals} :
  forall (myoptions : list option_t) (helpfile : string),
  (forall shorts mystore argc fuel st,
     let r := getopt_long argc (argv st) shorts myoptions (scanner st) in
     ret r = char_to_int "V" ->
     exists fin,
       parse_loop shorts myoptions mystore helpfile argc (S fuel) st
       = Ok (PRTE_ERR_SILENT, fin) /\
       results fin = results st /\
       scanner fin = ret_state r /\
       trace fin
       = (trace st ++
          print_help helpfile "version" false
            [Some prte_tool_basename; Some "PRRTE";
             Some PRTE_PROXY_VERSION_STRING;
             Some PRTE_PROXY_BUGREPORT])%list) /\
  (forall fuel storefn results g,
     let pargv := ["prog"; "-V"] in
     pmix_argv_copy_strip pargv = pargv ->
     short_match (first_scan pargv "hV" myoptions g)
       (char_to_int "V") None 2 pargv ->
     observe (prte_cmd_line_parse (S fuel) pargv "hV" myoptions storefn
                results helpfile g)
     = Ok (PRTE_ERR_SILENT, results,
           print_help helpfile "version" false
             [Some prte_tool_basename; Some "PRRTE";
              Some PRTE_PROXY_VERSION_STRING;
              Some PRTE_PROXY_BUGREPORT],
           2)).
Proof.
  intros myoptions helpfile.
  assert (Hstep := fun shorts mystore argc =>
            @loop_V E shorts myoptions mystore helpfile argc).
  split.
  - intros shorts mystore argc fuel st r Hr.
    eexists. split; [apply Hstep; exact Hr|]. repeat split.
  - intros fuel storefn results g pargv Hq (Hr & Ha & Hi & Hv).
    rewrite parse_entry by exact Hq.
    rewrite Hstep by exact Hr.
    unfold observe, first_scan in *. simpl in *. now rewrite Hi.
Qed.

Lemma version_option_witness :
  (exists fin,
     parse_loop (E := reference) "hV" [] check_store "help.txt" 2 1
       (entry (E := reference) ["prog"; "-V"] ocon boot)
     = Ok (PRTE_ERR_SILENT, fin) /\
     results fin = ocon /\ trace fin = [Printf "[help.txt:version]"]) /\
  observe (prte_cmd_line_parse (E := reference) 1 ["prog"; "-V"] "hV" []
             None ocon "help.txt" boot)
  = Ok (PRTE_ERR_SILENT, ocon, [Printf "[help.txt:version]"], 2).
Proof.
  destruct (version_option_returns_at_once (E := reference) [] "help.txt")
    as [H1 H2].
  split.
  - destruct (H1 "hV" check_store 2 0%nat
                (entry (E := reference) ["prog"; "-V"] ocon boot))
      as (fin & Hrun & Hres & _ & Htr); [reflexivity|].
    exists fin. split; [exact Hrun|]. split; [exact Hres | exact Htr].
  - apply (H2 0%nat None ocon boot).
    + reflexivity.
    + repeat split.
Defined.

(** C9.  When a run with the default callback returns [PRTE_ERR_SILENT],
    the results are the caller's results with every store of the run
    applied, in order: each option stored before the exit has its item,
    with its value, in [instances], and the items the caller passed in are
    still there; the tail alone is as the caller passed it.  So on
    [prog --foo a -V] the run is silent-error and yet [foo] has been stored
    with [a]. *)
Theorem silent_error_keeps_stored_options {E : Externals} :
  forall (shorts : string) (myoptions : list option_t) (helpfile : string),
  (forall fuel pargv results0 g fin,
     prte_cmd_line_parse fuel pargv shorts myoptions None results0
       helpfile g = Ok (PRTE_ERR_SILENT, fin) ->
     tail (results fin) = tail results0 /\
     (exists stores prints,
        trace fin = (stores ++ prints)%list /\
        Forall is_store stores /\ Forall is_printf prints /\
        results fin = replay check_store stores results0) /\
     (forall nm v,
        In (Store nm v) (trace fin) ->
        exists opt,
          In opt (instances (results fin)) /\ key opt = nm /\
          forall s, v = Some s -> In s (values opt)) /\
     (forall k,
        In k (keys (instances results0)) ->
        In k (keys (instances (results fin))))) /\
  (forall fuel results0 g idx o a,
     let pargv := ["prog"; "--foo"; a; "-V"] in
     pmix_argv_copy_strip pargv = pargv ->
     option_at myoptions idx = Ok o ->
     name o = "foo" ->
     long_help_directive a = false ->
     let r1 := first_scan pargv shorts myoptions g in
     long_match r1 idx (Some a) 3 pargv ->
     short_match (next_scan 4 pargv shorts myoptions (ret_state r1))
       (char_to_int "V") None 4 pargv ->
     observe (prte_cmd_line_parse (S (S fuel)) pargv shorts myoptions None
                results0 helpfile g)
     = Ok (PRTE_ERR_SILENT,
           check_store "foo" (Some a) results0,
           (Store "foo" (Some a)
            :: print_help helpfile "version" false
                 [Some prte_tool_basename; Some "PRRTE";
                  Some PRTE_PROXY_VERSION_STRING;
                  Some PRTE_PROXY_BUGREPORT])%list,
           4)).
Proof.
  intros shorts myoptions helpfile. split.
  - intros fuel pargv results0 g fin H.
    apply parse_run in H.
    destruct H as (stores & final & Ht & Hs & Hr & Hc).
    destruct Hc as [(_ & Hp)|[(Hd & _)|(Hd & _)]]; try discriminate.
    cbn [mystore_of] in Hr.
    rewrite replay_app, (replay_printf _ _ Hp) in Hr.
    split; [|split; [|split]].
    + rewrite Hr. now apply tail_replay_store.
    + exists stores, final. now repeat split.
    + intros nm v Hin. rewrite Hr. apply stored_option_remains.
      rewrite Ht in Hin. apply in_app_or in Hin.
      destruct Hin as [Hin|Hin]; [assumption|].
      rewrite Forall_forall in Hp. apply Hp in Hin. contradiction.
    + intros k Hk. rewrite Hr. now apply keys_replay_mono.
  - intros fuel results0 g idx o a pargv Hq Ho Hn Hh r1 Hm Hx.
    rewrite parse_entry by exact Hq.
    rewrite loop_long_store with (idx := idx) (o := o) (arg := Some a)
      (next := 3) (av := pargv);
      try assumption; [|rewrite Hn; discriminate].
    destruct Hm as (_ & _ & _ & Hi & Hv).
    destruct Hx as (Hr2 & Ha2 & Hi2 & Hv2).
    match goal with
    | |- observe (parse_loop _ _ _ _ _ _ ?s) = _ => set (st2 := s)
    end.
    assert (Hs2 : getopt_long (pmix_argv_count pargv) (argv st2) shorts
                    myoptions (scanner st2)
                  = next_scan 4 pargv shorts myoptions (ret_state r1)).
    { unfold st2, next_scan, r1, first_scan in *. simpl. rewrite Hv.
      reflexivity. }
    rewrite loop_V by (rewrite Hs2; exact Hr2).
    rewrite Hs2. unfold observe, next_scan in *. simpl.
    now rewrite Hi2, Hn.
Qed.

Lemma silent_error_witness :
  observe (prte_cmd_line_parse (E := reference) 2
             ["prog"; "--foo"; "x"; "-V"] "hV" foo_table None ocon
             "help.txt" boot)
  = Ok (PRTE_ERR_SILENT,
        {| instances := [{| key := "foo"; values := ["x"] |}];
           tail := None |},
        [Store "foo" (Some "x"); Printf "[help.txt:version]"],
        4)
  /\ (exists fin,
        prte_cmd_line_parse (E := reference) 2 ["prog"; "--foo"; "x"; "-V"]
          "hV" foo_table None ocon "help.txt" boot
        = Ok (PRTE_ERR_SILENT, fin) /\
        tail (results fin) = None /\
        exists opt,
          In opt (instances (results fin)) /\ key opt = "foo" /\
          In "x" (values opt)).
Proof.
  destruct (silent_error_keeps_stored_options (E := reference) "hV"
              foo_table "help.txt") as [H1 H2].
  split.
  - refine (H2 0%nat ocon boot 0
              {| name := "foo"; has_arg := PRTE_ARG_REQD; flag := None;
                 val := 0 |} "x" _ _ _ _ _ _);
      try reflexivity; repeat split.
  - destruct foo_then_version_returns as (fin & Hfin & Htrace).
    exists fin. split; [exact Hfin|].
    destruct (H1 _ _ _ _ _ Hfin) as (Ht & _ & Hs & _).
    split; [exact Ht|].
    destruct (Hs "foo" (Some "x")) as (opt & Hin & Hk & Hv).
    + rewrite Htrace. now left.
    + exists opt. repeat split; try assumption. now apply Hv.
Defined.

(** C10.  In the [mca] branch the value handed to the store callback is
    the token at [optind - 1], an [=] and the token at [optind], both read
    from the normalized argument vector; the argument the scanner reports
    does not enter it.  So when the argument is attached, as in
    [--nm=k] followed by [v], the value stored under [nm] is [--nm=k=v],
    which is not [k=v]. *)
Theorem mca_value_from_raw_tokens {E : Externals} :
  forall (myoptions : list option_t) (helpfile : string),
  (forall shorts mystore argc fuel st idx o arg next av a b,
     let r := getopt_long argc (argv st) shorts myoptions (scanner st) in
     long_match r idx arg next av ->
     option_at myoptions idx = Ok o ->
     endswith (Some (name o)) (Some "mca") = PRTE_SUCCESS ->
     is_long_help arg = false ->
     argv_at av (next - 1) = Ok (Some a) ->
     argv_at av next = Ok (Some b) ->
     parse_loop shorts myoptions mystore helpfile argc (S fuel) st
     = parse_loop shorts myoptions mystore helpfile argc fuel
         (set_optind (next + 1)
            (call_store mystore (name o) (Some (a ++ "=" ++ b)%string)
               (scanned r st)))) /\
  (forall shorts storefn results g idx o nm k v fuel,
     let token := ("--" ++ nm ++ "=" ++ k)%string in
     let pargv := ["prog"; token; v] in
     pmix_argv_copy_strip pargv = pargv ->
     option_at myoptions idx = Ok o ->
     name o = nm ->
     endswith (Some nm) (Some "mca") = PRTE_SUCCESS ->
     long_help_directive k = false ->
     let r1 := first_scan pargv shorts myoptions g in
     long_match r1 idx (Some k) 2 pargv ->
     exhausted
       (next_scan 3 pargv shorts myoptions (with_optind 3 (ret_state r1)))
       3 pargv ->
     observe (prte_cmd_line_parse (S (S fuel)) pargv shorts myoptions
                storefn results helpfile g)
     = Ok (PRTE_SUCCESS,
           mystore_of storefn nm (Some (token ++ "=" ++ v)%string) results,
           [Store nm (Some (token ++ "=" ++ v)%string)],
           3)
     /\ (token ++ "=" ++ v)%string <> (k ++ "=" ++ v)%string).
Proof.
  intros myoptions helpfile. split.
  - intros shorts mystore argc fuel st idx o arg next av a b r
      Hm Ho He Hh Ha Hb.
    now apply loop_mca with (idx := idx) (arg := arg) (av := av).
  - intros shorts storefn results g idx o nm k v fuel token pargv
      Hq Ho Hn He Hh r1 Hm Hx.
    split.
    + rewrite parse_entry by exact Hq.
      rewrite loop_mca with (idx := idx) (o := o) (arg := Some k)
        (next := 2) (av := pargv) (a := token) (b := v);
        try assumption; try reflexivity; [|now rewrite Hn].
      destruct Hm as (_ & _ & _ & Hi & Hv).
      destruct Hx as (Hr2 & Hi2 & Hv2).
      match goal with
      | |- observe (parse_loop _ _ _ _ _ _ ?s) = _ => set (st2 := s)
      end.
      assert (Hs2 : getopt_long (pmix_argv_count pargv) (argv st2) shorts
                      myoptions (scanner st2)
                    = next_scan 3 pargv shorts myoptions
                        (with_optind 3 (ret_state r1))).
      { unfold st2, next_scan, r1, first_scan in *. simpl. rewrite Hv.
        reflexivity. }
      rewrite loop_exhausted by (rewrite Hs2; exact Hr2).
      rewrite Hs2. unfold finish, observe. simpl. rewrite Hi2. simpl.
      now rewrite Hi2, Hn.
    + intros Heq. apply (f_equal String.length) in Heq.
      unfold token in Heq. rewrite !length_append in Heq. simpl in Heq. lia.
Qed.

Lemma mca_value_witness :
  parse_loop (E := reference) "hV" name_mca_table check_store "help.txt" 3 2
    (entry (E := reference) ["prog"; "--name_mca=key"; "value"] ocon boot)
  = parse_loop (E := reference) "hV" name_mca_table check_store "help.txt"
      3 1
      (set_optind 3
         (call_store check_store "name_mca" (Some "--name_mca=key=value")
            (scanned
               (first_scan (E := reference)
                  ["prog"; "--name_mca=key"; "value"] "hV" name_mca_table
                  boot)
               (entry (E := reference) ["prog"; "--name_mca=key"; "value"]
                  ocon boot))))
  /\ observe (prte_cmd_line_parse (E := reference) 2
                ["prog"; "--name_mca=key"; "value"] "hV" name_mca_table
                None ocon "help.txt" boot)
     = Ok (PRTE_SUCCESS,
           {| instances := [{| key := "name_mca";
                               values := ["--name_mca=key=value"] |}];
              tail := None |},
           [Store "name_mca" (Some "--name_mca=key=value")],
           3).
Proof.
  destruct (mca_value_from_raw_tokens (E := reference) name_mca_table
              "help.txt") as [H1 H2].
  split.
  - refine (H1 "hV" check_store 3 1%nat
              (entry (E := reference) ["prog"; "--name_mca=key"; "value"]
                 ocon boot)
              0
              {| name := "name_mca"; has_arg := PRTE_ARG_REQD; flag := None;
                 val := 0 |}
              (Some "key") 2 ["prog"; "--name_mca=key"; "value"]
              "--name_mca=key" "value" _ _ _ _ _ _);
      try reflexivity; repeat split.
  - refine (proj1 (H2 "hV" None ocon boot 0
                     {| name := "name_mca"; has_arg := PRTE_ARG_REQD;
                        flag := None; val := 0 |}
                     "name_mca" "key" "value" 0%nat _ _ _ _ _ _ _));
      try reflexivity; repeat split.
Defined.

(** * Further properties of the code *)

(** ** [endswith] *)

Lemma substring_whole s : substring 0 (String.length s) s = s.
Proof. induction s as [|c s IH]; simpl; [reflexivity | now rewrite IH]. Qed.

Lemma substring_skip_prefix p s m :
  substring (String.length p) m (p ++ s) = substring 0 m s.
Proof. induction p as [|c p IH]; simpl; [reflexivity | exact IH]. Qed.

Lemma substring_split k s :
  (k <= String.length s)%nat ->
  s = (substring 0 k s ++ substring k (String.length s - k) s)%string.
Proof.
  revert s. induction k as [|k IH]; intros s Hk.
  - rewrite Nat.sub_0_r, substring_whole.
    destruct s; reflexivity.
  - destruct s as [|c s]; simpl in *; [lia|].
    f_equal. apply IH. lia.
Qed.

(** X1.  [endswith] returns [PRTE_SUCCESS] exactly when [str] is some text
    followed by [suffix], and [PRTE_ERR_BAD_PARAM] in every other case, a
    NULL argument included; so every string ends with the empty suffix and
    with itself, and the parser takes the [mca] branch exactly for the
    names of the form [p ++ "mca"]. *)
Theorem endswith_iff_suffix :
  (forall str suffix,
     endswith (Some str) (Some suffix) = PRTE_SUCCESS <->
     exists p, str = (p ++ suffix)%string) /\
  (forall str suffix,
     endswith str suffix = PRTE_SUCCESS \/
     endswith str suffix = PRTE_ERR_BAD_PARAM) /\
  (forall x, endswith None x = PRTE_ERR_BAD_PARAM /\
             endswith x None = PRTE_ERR_BAD_PARAM) /\
  (forall str,
     endswith (Some str) (Some EmptyString) = PRTE_SUCCESS /\
     endswith (Some str) (Some str) = PRTE_SUCCESS).
Proof.
  assert (Hiff : forall str suffix,
     endswith (Some str) (Some suffix) = PRTE_SUCCESS <->
     exists p, str = (p ++ suffix)%string).
  { intros str suffix. unfold endswith. split.
    - destruct (Nat.ltb_spec (String.length str) (String.length suffix))
        as [Hlt|Hge]; [discriminate|].
      destruct (String.eqb_spec
                  (substring (String.length str - String.length suffix)
                     (String.length suffix) str) suffix) as [Heq|Hne];
        [|discriminate].
      intros _.
      exists (substring 0 (String.length str - String.length suffix) str).
      assert (Hs := substring_split
                      (String.length str - String.length suffix) str).
      replace (String.length str
               - (String.length str - String.length suffix))%nat
        with (String.length suffix) in Hs by lia.
      rewrite Heq in Hs. apply Hs. lia.
    - intros [p ->]. rewrite length_append.
      destruct (Nat.ltb_spec (String.length p + String.length suffix)
                  (String.length suffix)) as [Hlt|Hge]; [lia|].
      replace (String.length p + String.length suffix
               - String.length suffix)%nat with (String.length p) by lia.
      rewrite substring_skip_prefix, substring_whole, String.eqb_refl.
      reflexivity. }
  split; [exact Hiff|]. split; [|split].
  - intros [str|] [suffix|]; simpl; auto.
    destruct (Nat.ltb (String.length str) (String.length suffix)); auto.
    destruct (String.eqb _ suffix); auto.
  - intros [x|]; split; reflexivity.
  - intros str. split; apply Hiff.
    + exists str. clear. induction str as [|c s IH]; simpl;
        [reflexivity | now rewrite <- IH].
    + now exists EmptyString.
Qed.

Lemma endswith_witness :
  (exists p, "myplugin_mca" = (p ++ "mca")%string) /\
  endswith (Some "myplugin_mca") (Some "mca") = PRTE_SUCCESS.
Proof.
  destruct endswith_iff_suffix as (Hiff & _).
  split.
  - apply (proj1 (Hiff "myplugin_mca" "mca")). reflexivity.
  - apply (proj2 (Hiff "myplugin_mca" "mca")). now exists "myplugin_".
Defined.

(** ** The shape of a run *)

Lemma option_at_In myoptions i o :
  option_at myoptions i = Ok o -> In o myoptions.
Proof.
  unfold option_at. destruct (i <? 0); [discriminate|].
  destruct (nth_error myoptions (Z.to_nat i)) eqn:Hn; [|discriminate].
  intros H. inversion H; subst. eapply nth_error_In; eassumption.
Qed.

Lemma find_val_In code myoptions o :
  find_val code myoptions = Some o -> In o myoptions /\ val o = code.
Proof.
  induction myoptions as [|x l IH]; simpl; [discriminate|].
  destruct (Z.eqb_spec code (val x)) as [Heq|Hne].
  - intros H. inversion H; subst. split; [now left | reflexivity].
  - intros H. destruct (IH H). split; [now right | assumption].
Qed.

Section Shape.

Context {E : Externals}.
Variable shorts : string.
Variable myoptions : list option_t.
Variable mystore : prte_cmd_line_store_fn_t.
Variable helpfile : string.
Variable argc : Z.

Local Abbreviation switch := (dispatch shorts myoptions mystore helpfile).
Local Abbreviation loop :=
  (parse_loop shorts myoptions mystore helpfile argc).

Lemma print_help_one file topic err args :
  print_help file topic err args = [] \/
  exists s, print_help file topic err args = [Printf s].
Proof.
  unfold print_help. destruct prte_show_help_string as [s|];
    [right; now exists s | now left].
Qed.

(** A pass that ends in [return] has printed one text or none. *)
Lemma dispatch_return_print argind opt st rc st' :
  switch argind opt st = Ok (Return rc st') ->
  exists evs,
    trace st' = (trace st ++ evs)%list /\
    (evs = [] \/ exists s, evs = [Printf s]).
Proof.
  intros H.
  unfold dispatch, case_long, case_h, case_V, case_default,
    short_argument, help_exit, bind in H.
  repeat (break_match_hyp H; try discriminate);
    inversion H; subst; clear H; simpl;
    eexists; (split; [reflexivity | apply print_help_one]).
Qed.

(** A pass that ends in [break] has made one call of the store callback
    or none, and the key of the call is the name of a table entry. *)
Lemma dispatch_break_key argind opt st st' :
  switch argind opt st = Ok (Break st') ->
  exists evs,
    trace st' = (trace st ++ evs)%list /\
    Forall (stored_from myoptions) evs.
Proof.
  intros H.
  assert (Hnil : exists evs, trace st = (trace st ++ evs)%list /\
                             Forall (stored_from myoptions) evs).
  { exists []. rewrite app_nil_r. now split. }
  assert (Hone : forall o v, In o myoptions ->
            exists evs,
              (trace st ++ [Store (name o) v])%list = (trace st ++ evs)%list /\
              Forall (stored_from myoptions) evs).
  { intros o v Ho. exists [Store (name o) v]. split; [reflexivity|].
    repeat constructor. simpl. now apply in_map. }
  unfold dispatch, case_long, case_h, case_V, case_default,
    short_argument, help_exit, bind in H.
  repeat (break_match_hyp H; try discriminate);
    inversion H; subst; clear H; simpl; auto;
    apply Hone;
    solve [ eapply option_at_In; eassumption
          | eapply find_val_In; eassumption ].
Qed.

Lemma parse_loop_shape fuel st rc fin :
  loop fuel st = Ok (rc, fin) ->
  exists stores final,
    trace fin = (trace st ++ stores ++ final)%list /\
    Forall (stored_from myoptions) stores /\
    ((rc = PRTE_ERR_SILENT /\ (final = [] \/ exists s, final = [Printf s])) \/
     (rc = PRTE_SUCCESS /\
      (final = [] \/ exists t, final = [AssignTail t]))).
Proof.
  revert st. induction fuel as [|fuel IH]; intros st H; [discriminate|].
  rewrite parse_loop_unfold in H. cbv zeta in H.
  set (r := getopt_long argc (argv st) shorts myoptions (scanner st)) in *.
  destruct (ret r =? -1).
  - unfold finish in H.
    destruct (optind (scanner (scanned r st)) <? argc).
    + destruct (optind (scanner (scanned r st)) <? 0); [discriminate|].
      inversion H; subst; clear H. simpl.
      exists [], [AssignTail (pmix_argv_copy_from (ret_argv r)
                                (optind (ret_state r)))].
      split; [reflexivity|]. split; [constructor|].
      right. split; [reflexivity|]. right. eexists. reflexivity.
    + inversion H; subst; clear H. exists [], []. simpl.
      rewrite app_nil_r. split; [reflexivity|]. split; [constructor|].
      right. split; [reflexivity | now left].
  - unfold bind in H.
    destruct (switch (optind (scanner st)) (ret r) (scanned r st))
      as [[st2|rc2 st2]| |] eqn:Hd; try discriminate.
    + apply dispatch_break_key in Hd. destruct Hd as (evs & Ht & Hs).
      apply IH in H. destruct H as (stores & final & Ht' & Hs' & Hc).
      exists (evs ++ stores)%list, final.
      split; [|split].
      * rewrite Ht', Ht. simpl. now rewrite <- !app_assoc.
      * apply Forall_app. now split.
      * exact Hc.
    + inversion H; subst; clear H.
      pose proof Hd as Hrc. apply dispatch_return in Hrc.
      destruct Hrc as (-> & _).
      apply dispatch_return_print in Hd. destruct Hd as (evs & Ht & He).
      exists [], evs. simpl. split; [exact Ht|]. split; [constructor|].
      left. now split.
Qed.

End Shape.

Lemma stored_from_is_store myoptions evs :
  Forall (stored_from myoptions) evs -> Forall is_store evs.
Proof.
  induction 1 as [|e evs He _ IH]; constructor; [|exact IH].
  destruct e; simpl in *; auto.
Qed.

Lemma parse_shape {E : Externals} fuel pargv shorts myoptions storefn
  results0 helpfile g rc fin :
  prte_cmd_line_parse fuel pargv shorts myoptions storefn results0 helpfile g
  = Ok (rc, fin) ->
  exists stores final,
    trace fin = (stores ++ final)%list /\
    Forall (stored_from myoptions) stores /\
    ((rc = PRTE_ERR_SILENT /\ (final = [] \/ exists s, final = [Printf s])) \/
     (rc = PRTE_SUCCESS /\
      (final = [] \/ exists t, final = [AssignTail t]))).
Proof.
  unfold prte_cmd_line_parse. intros H.
  apply parse_loop_shape in H. exact H.
Qed.

(** A run on the reference collaborators with short and long options,
    an attached argument and a positional at the end. *)
Lemma mixed_run_returns :
  exists fin,
    prte_cmd_line_parse (E := reference) 6
      ["prog"; "-x"; "1"; "--foo"; "a"; "-x"; "2"; "--foo=b"; "pos"]
      "hVx:" (foo_table ++ xopt_table) None ocon "help.txt" boot
    = Ok (PRTE_SUCCESS, fin) /\
    trace fin = [Store "xopt" (Some "1"); Store "foo" (Some "a");
                 Store "xopt" (Some "2"); Store "foo" (Some "b");
                 AssignTail ["pos"]].
Proof.
  assert (Hobs :
    observe (prte_cmd_line_parse (E := reference) 6
               ["prog"; "-x"; "1"; "--foo"; "a"; "-x"; "2"; "--foo=b";
                "pos"]
               "hVx:" (foo_table ++ xopt_table) None ocon "help.txt" boot)
    = Ok (PRTE_SUCCESS,
          {| instances := [{| key := "xopt"; values := ["1"; "2"] |};
                           {| key := "foo"; values := ["a"; "b"] |}];
             tail := Some ["pos"] |},
          [Store "xopt" (Some "1"); Store "foo" (Some "a");
           Store "xopt" (Some "2"); Store "foo" (Some "b");
           AssignTail ["pos"]],
          8)) by (vm_compute; reflexivity).
  destruct (prte_cmd_line_parse (E := reference) 6
              ["prog"; "-x"; "1"; "--foo"; "a"; "-x"; "2"; "--foo=b"; "pos"]
              "hVx:" (foo_table ++ xopt_table) None ocon "help.txt" boot)
    as [[rc fin]| |]; try discriminate Hobs.
  unfold observe in Hobs. cbn [bind fst snd] in Hobs.
  injection Hobs as -> _ Htrace _.
  now exists fin.
Qed.

(** X2.  A finished run returns [PRTE_SUCCESS] or [PRTE_ERR_SILENT] and
    no other status.  A run that succeeds has printed nothing.  A run that
    ends in silent-error has printed one text at most, as its last action,
    after the calls of the store callback. *)
Theorem run_status_and_output {E : Externals} :
  forall fuel pargv shorts myoptions storefn results0 helpfile g rc fin,
  prte_cmd_line_parse fuel pargv shorts myoptions storefn results0 helpfile g
  = Ok (rc, fin) ->
  (rc = PRTE_SUCCESS \/ rc = PRTE_ERR_SILENT) /\
  (rc = PRTE_SUCCESS -> forall s, ~ In (Printf s) (trace fin)) /\
  (rc = PRTE_ERR_SILENT ->
   exists stores,
     Forall is_store stores /\
     (trace fin = stores \/ exists s, trace fin = (stores ++ [Printf s])%list)).
Proof.
  intros fuel pargv shorts myoptions storefn results0 helpfile g rc fin H.
  apply parse_shape in H. destruct H as (stores & final & Ht & Hs & Hc).
  apply stored_from_is_store in Hs.
  assert (Hnp : forall s, ~ In (Printf s) stores).
  { intros s Hin. rewrite Forall_forall in Hs. apply Hs in Hin.
    contradiction. }
  destruct Hc as [(-> & Hf)|(-> & Hf)].
  - split; [now right|]. split; [discriminate|].
    intros _. exists stores. split; [assumption|].
    destruct Hf as [->|[s ->]].
    + left. now rewrite Ht, app_nil_r.
    + right. now exists s.
  - split; [now left|]. split; [|discriminate].
    intros _ s Hin. rewrite Ht in Hin. apply in_app_or in Hin.
    destruct Hin as [Hin|Hin]; [now apply (Hnp s)|].
    destruct Hf as [->|[t ->]]; simpl in Hin; [contradiction|].
    destruct Hin as [Hin|[]]. discriminate.
Qed.

Lemma run_status_witness :
  (exists fin,
     prte_cmd_line_parse (E := reference) 2 ["prog"; "--foo"; "x"; "-V"]
       "hV" foo_table None ocon "help.txt" boot
     = Ok (PRTE_ERR_SILENT, fin) /\
     exists stores,
       Forall is_store stores /\
       (trace fin = stores \/
        exists s, trace fin = (stores ++ [Printf s])%list)) /\
  (exists fin,
     prte_cmd_line_parse (E := reference) 6
       ["prog"; "-x"; "1"; "--foo"; "a"; "-x"; "2"; "--foo=b"; "pos"]
       "hVx:" (foo_table ++ xopt_table) None ocon "help.txt" boot
     = Ok (PRTE_SUCCESS, fin) /\
     forall s, ~ In (Printf s) (trace fin)).
Proof.
  split.
  - destruct foo_then_version_returns as (fin & Hfin & _).
    exists fin. split; [exact Hfin|].
    apply (run_status_and_output (E := reference)) in Hfin.
    destruct Hfin as (_ & _ & Hs). now apply Hs.
  - destruct mixed_run_returns as (fin & Hfin & _).
    exists fin. split; [exact Hfin|].
    apply (run_status_and_output (E := reference)) in Hfin.
    destruct Hfin as (_ & Hs & _). now apply Hs.
Defined.

(** ** The keys of the results *)

Lemma existsb_eqb_In k l : existsb (String.eqb k) l = true <-> In k l.
Proof.
  rewrite existsb_exists. split.
  - intros (x & Hx & Heq). apply String.eqb_eq in Heq. now subst.
  - intros H. exists k. split; [assumption | apply String.eqb_refl].
Qed.

Lemma keys_check_store_list_add nm v l :
  keys (check_store_list nm v l) = add_key (keys l) nm.
Proof.
  unfold add_key. destruct (existsb (String.eqb nm) (keys l)) eqn:He.
  - apply keys_check_store_list_in. now apply existsb_eqb_In.
  - apply keys_check_store_list_new. intros Hin.
    apply existsb_eqb_In in Hin. congruence.
Qed.

Lemma keys_replay evs r :
  keys (instances (replay check_store evs r))
  = first_seen (keys (instances r)) (stored_keys evs).
Proof.
  revert r. induction evs as [|e evs IH]; intros r; [reflexivity|].
  unfold replay, first_seen in *. simpl. rewrite IH.
  destruct e as [s|nm v|t]; simpl; try reflexivity.
  now rewrite keys_check_store_list_add.
Qed.

Lemma first_seen_news l ks :
  exists news,
    first_seen l ks = (l ++ news)%list /\
    forall k, In k news -> In k ks /\ ~ In k l.
Proof.
  revert l. induction ks as [|x ks IH]; intros l.
  - exists []. rewrite app_nil_r. split; [reflexivity | contradiction].
  - unfold first_seen in *. simpl. unfold add_key at 2.
    destruct (existsb (String.eqb x) l) eqn:He.
    + destruct (IH l) as (news & Hn & Hk). exists news.
      split; [exact Hn|]. intros k Hin. destruct (Hk k Hin). tauto.
    + destruct (IH (l ++ [x])%list) as (news & Hn & Hk).
      exists (x :: news). split; [now rewrite Hn, <- app_assoc|].
      intros k [<-|Hin].
      * split; [now left|]. intros Hin. apply existsb_eqb_In in Hin.
        congruence.
      * destruct (Hk k Hin) as [H1 H2]. split; [now right|].
        intros Hl. apply H2. apply in_or_app. now left.
Qed.

Lemma first_seen_In l ks k :
  In k (first_seen l ks) <-> In k l \/ In k ks.
Proof.
  revert l. induction ks as [|x ks IH]; intros l.
  - simpl. tauto.
  - unfold first_seen in *. simpl. rewrite IH. unfold add_key.
    destruct (existsb (String.eqb x) l) eqn:He.
    + apply existsb_eqb_In in He. split; [tauto|].
      intros [H|[H|H]]; subst; tauto.
    + rewrite in_app_iff. simpl. tauto.
Qed.

Lemma first_seen_NoDup l ks : NoDup l -> NoDup (first_seen l ks).
Proof.
  revert l. induction ks as [|x ks IH]; intros l H; [assumption|].
  unfold first_seen in *. simpl. apply IH. unfold add_key.
  destruct (existsb (String.eqb x) l) eqn:He; [assumption|].
  apply NoDup_app; repeat split; try assumption.
  - repeat constructor. simpl. tauto.
  - intros y Hy [<-|[]]. apply existsb_eqb_In in Hy. congruence.
Qed.

(** X3.  With the default callback the keys of [instances] after a
    finished run are the keys before it, in place, followed by the keys
    the run stored that were not there, each once and in the order in
    which the loop first met them. *)
Theorem instances_in_first_seen_order {E : Externals} :
  forall fuel pargv shorts myoptions results0 helpfile g rc fin,
  prte_cmd_line_parse fuel pargv shorts myoptions None results0 helpfile g
  = Ok (rc, fin) ->
  let before := keys (instances results0) in
  let stored := stored_keys (trace fin) in
  keys (instances (results fin)) = first_seen before stored /\
  (exists news,
     keys (instances (results fin)) = (before ++ news)%list /\
     (NoDup before -> NoDup (before ++ news)) /\
     forall k, In k news -> In k stored /\ ~ In k before) /\
  (forall k, In k (keys (instances (results fin))) <->
             In k before \/ In k stored).
Proof.
  intros fuel pargv shorts myoptions results0 helpfile g rc fin H
    before stored.
  apply parse_run in H. destruct H as (stores & final & Ht & _ & Hr & _).
  assert (Hk : keys (instances (results fin)) = first_seen before stored).
  { rewrite Hr. cbn [mystore_of]. rewrite keys_replay.
    unfold stored. now rewrite Ht. }
  split; [exact Hk|]. split.
  - destruct (first_seen_news before stored) as (news & Hn & Hnews).
    exists news. split; [now rewrite Hk|]. split.
    + intros Hnd. rewrite <- Hn. now apply first_seen_NoDup.
    + exact Hnews.
  - intros k. rewrite Hk. apply first_seen_In.
Qed.

Lemma instances_order_witness :
  exists fin,
    prte_cmd_line_parse (E := reference) 6
      ["prog"; "-x"; "1"; "--foo"; "a"; "-x"; "2"; "--foo=b"; "pos"]
      "hVx:" (foo_table ++ xopt_table) None ocon "help.txt" boot
    = Ok (PRTE_SUCCESS, fin) /\
    keys (instances (results fin)) = ["xopt"; "foo"].
Proof.
  destruct mixed_run_returns as (fin & Hfin & Htrace).
  exists fin. split; [exact Hfin|].
  apply (instances_in_first_seen_order (E := reference)) in Hfin.
  destruct Hfin as (Hk & _). rewrite Hk, Htrace. reflexivity.
Defined.

Lemma stored_from_key myoptions evs k v :
  Forall (stored_from myoptions) evs -> In (Store k v) evs ->
  In k (map name myoptions).
Proof.
  intros H Hin. rewrite Forall_forall in H. exact (H _ Hin).
Qed.

Lemma stored_keys_In evs k :
  In k (stored_keys evs) <-> exists v, In (Store k v) evs.
Proof.
  unfold stored_keys. rewrite in_flat_map. split.
  - intros (e & He & Hk). destruct e as [s|nm v|t]; simpl in Hk;
      try contradiction.
    destruct Hk as [<-|[]]. now exists v.
  - intros (v & Hin). exists (Store k v). split; [assumption | now left].
Qed.

(** X4.  Every key the parser hands to the store callback is the name of
    an entry of the option table.  So with the default callback every key
    of [instances] after a run was there before or is such a name. *)
Theorem stored_keys_are_table_names {E : Externals} :
  forall fuel pargv shorts myoptions storefn results0 helpfile g rc fin,
  prte_cmd_line_parse fuel pargv shorts myoptions storefn results0 helpfile g
  = Ok (rc, fin) ->
  (forall k v, In (Store k v) (trace fin) -> In k (map name myoptions)) /\
  (storefn = None ->
   forall k, In k (keys (instances (results fin))) ->
             In k (keys (instances results0)) \/ In k (map name myoptions)).
Proof.
  intros fuel pargv shorts myoptions storefn results0 helpfile g rc fin H.
  assert (Hkeys : forall k v, In (Store k v) (trace fin) ->
                              In k (map name myoptions)).
  { pose proof H as Hs. apply parse_shape in Hs.
    destruct Hs as (stores & final & Ht & Hs & Hc).
    intros k v Hin. rewrite Ht in Hin. apply in_app_or in Hin.
    destruct Hin as [Hin|Hin]; [now apply (stored_from_key _ _ _ _ Hs Hin)|].
    destruct Hc as [(_ & [->|[s ->]])|(_ & [->|[t ->]])]; simpl in Hin;
      try contradiction; destruct Hin as [Hin|[]]; discriminate. }
  split; [exact Hkeys|].
  intros -> k Hin.
  apply parse_run in H. destruct H as (stores & final & Ht & _ & Hr & _).
  rewrite Hr in Hin. cbn [mystore_of] in Hin.
  rewrite keys_replay, <- Ht in Hin. apply first_seen_In in Hin.
  destruct Hin as [Hin|Hin]; [now left|]. right.
  apply stored_keys_In in Hin. destruct Hin as [v Hin].
  now apply (Hkeys k v).
Qed.

Lemma stored_keys_witness :
  exists fin,
    prte_cmd_line_parse (E := reference) 6
      ["prog"; "-x"; "1"; "--foo"; "a"; "-x"; "2"; "--foo=b"; "pos"]
      "hVx:" (foo_table ++ xopt_table) None ocon "help.txt" boot
    = Ok (PRTE_SUCCESS, fin) /\
    forall k, In k (keys (instances (results fin))) ->
              In k ["foo"; "xopt"].
Proof.
  destruct mixed_run_returns as (fin & Hfin & _).
  exists fin. split; [exact Hfin|].
  apply (stored_keys_are_table_names (E := reference)) in Hfin.
  destruct Hfin as (_ & Hk). intros k Hin.
  destruct (Hk eq_refl k Hin) as [H|H]; [contradiction | exact H].
Defined.

(** ** The callback *)

(** X5.  The parser changes the results object in two ways only: through
    the store callback, one call after the other, and by the assignment of
    the tail.  Whatever callback the caller passes, the results after a
    finished run are the results before it with the actions of the trace
    applied in order. *)
Theorem results_are_replay_of_callback {E : Externals} :
  forall fuel pargv shorts myoptions storefn results0 helpfile g rc fin,
  prte_cmd_line_parse fuel pargv shorts myoptions storefn results0 helpfile g
  = Ok (rc, fin) ->
  results fin = replay (mystore_of storefn) (trace fin) results0.
Proof.
  intros fuel pargv shorts myoptions storefn results0 helpfile g rc fin H.
  apply parse_run in H. destruct H as (stores & final & Ht & _ & Hr & _).
  now rewrite Ht.
Qed.

(** The run of [--foo a --foo b] with the callback [last_wins]. *)
Lemma last_wins_run_returns :
  exists fin,
    prte_cmd_line_parse (E := reference) 3
      ["prog"; "--foo"; "a"; "--foo"; "b"] "hV" foo_table (Some last_wins)
      ocon "help.txt" boot
    = Ok (PRTE_SUCCESS, fin) /\
    trace fin = [Store "foo" (Some "a"); Store "foo" (Some "b")].
Proof.
  assert (Hobs :
    observe (prte_cmd_line_parse (E := reference) 3
               ["prog"; "--foo"; "a"; "--foo"; "b"] "hV" foo_table
               (Some last_wins) ocon "help.txt" boot)
    = Ok (PRTE_SUCCESS,
          {| instances := [{| key := "foo"; values := ["b"] |}];
             tail := None |},
          [Store "foo" (Some "a"); Store "foo" (Some "b")],
          5)) by (vm_compute; reflexivity).
  destruct (prte_cmd_line_parse (E := reference) 3
              ["prog"; "--foo"; "a"; "--foo"; "b"] "hV" foo_table
              (Some last_wins) ocon "help.txt" boot)
    as [[rc fin]| |]; try discriminate Hobs.
  unfold observe in Hobs. cbn [bind fst snd] in Hobs.
  injection Hobs as -> _ Htrace _.
  now exists fin.
Qed.

Lemma results_replay_witness :
  exists fin,
    prte_cmd_line_parse (E := reference) 3
      ["prog"; "--foo"; "a"; "--foo"; "b"] "hV" foo_table (Some last_wins)
      ocon "help.txt" boot
    = Ok (PRTE_SUCCESS, fin) /\
    results fin
    = {| instances := [{| key := "foo"; values := ["b"] |}];
         tail := None |}.
Proof.
  destruct last_wins_run_returns as (fin & Hfin & Htrace).
  exists fin. split; [exact Hfin|].
  apply (results_are_replay_of_callback (E := reference)) in Hfin.
  rewrite Hfin, Htrace. reflexivity.
Defined.

Section Control.

Context {E : Externals}.
Variable shorts : string.
Variable myoptions : list option_t.
Variable helpfile : string.
Variable argc : Z.

(** One pass on two states that differ in the results only, with two
    callbacks: the passes end alike, in states that differ in the results
    only. *)
Lemma dispatch_same_control m1 m2 argind opt a b :
  same_control a b ->
  match dispatch shorts myoptions m1 helpfile argind opt a,
        dispatch shorts myoptions m2 helpfile argind opt b with
  | Ok (Break a'), Ok (Break b') => same_control a' b'
  | Ok (Return r1 a'), Ok (Return r2 b') => r1 = r2 /\ same_control a' b'
  | Undef, Undef => True
  | Timeout, Timeout => True
  | _, _ => False
  end.
Proof.
  destruct a as [av1 s1 i1 r1 t1], b as [av2 s2 i2 r2 t2].
  unfold same_control. simpl. intros (-> & -> & -> & ->).
  unfold dispatch, case_long, case_h, case_V, case_default,
    short_argument, help_exit, call_store, set_optind, set_results, emit,
    bind; simpl.
  repeat (break_match_goal; simpl; try discriminate);
    repeat split; congruence.
Qed.

Lemma parse_loop_same_control m1 m2 fuel a b :
  same_control a b ->
  outline (parse_loop shorts myoptions m1 helpfile argc fuel a)
  = outline (parse_loop shorts myoptions m2 helpfile argc fuel b).
Proof.
  revert a b. induction fuel as [|fuel IH]; intros a b Hab; [reflexivity|].
  rewrite !parse_loop_unfold. cbv zeta.
  pose proof Hab as (Hav & Hsc & Hoi & Htr).
  rewrite <- Hav, <- Hsc.
  set (r := getopt_long argc (argv a) shorts myoptions (scanner a)).
  assert (Hs : same_control (scanned r a) (scanned r b)).
  { unfold same_control. simpl. now rewrite Hoi, Htr. }
  destruct (ret r =? -1).
  - unfold finish. simpl.
    destruct (optind (ret_state r) <? argc); [|simpl; now rewrite Htr].
    destruct (optind (ret_state r) <? 0); [reflexivity|].
    simpl. now rewrite Htr.
  - assert (Hd := dispatch_same_control m1 m2 (optind (scanner a)) (ret r)
                    _ _ Hs).
    destruct (dispatch shorts myoptions m1 helpfile (optind (scanner a))
                (ret r) (scanned r a)) as [[a'|rc1 a']| |];
      destruct (dispatch shorts myoptions m2 helpfile (optind (scanner a))
                  (ret r) (scanned r b)) as [[b'|rc2 b']| |];
      try contradiction; cbn [bind]; try reflexivity.
    + now apply IH.
    + destruct Hd as (-> & Hav' & Hsc' & _ & Htr'). simpl.
      now rewrite Hav', Hsc', Htr'.
Qed.

End Control.

(** X6.  Neither the callback nor the results the caller passes in steer
    the parser: the status, the text printed, the calls of the store
    callback with their keys and values, the assignment of the tail and
    the scanner's cursor and argument vector at the end are the same for
    every callback and every initial results object. *)
Theorem callback_does_not_steer {E : Externals} :
  forall fuel pargv shorts myoptions helpfile g storefn1 storefn2
         results1 results2,
  outline (prte_cmd_line_parse fuel pargv shorts myoptions storefn1 results1
             helpfile g)
  = outline (prte_cmd_line_parse fuel pargv shorts myoptions storefn2
               results2 helpfile g).
Proof.
  intros. unfold prte_cmd_line_parse.
  apply parse_loop_same_control. repeat split.
Qed.

Lemma callback_witness :
  outline (prte_cmd_line_parse (E := reference) 3
             ["prog"; "--foo"; "a"; "--foo"; "b"] "hV" foo_table
             (Some last_wins) ocon "help.txt" boot)
  = outline (prte_cmd_line_parse (E := reference) 3
               ["prog"; "--foo"; "a"; "--foo"; "b"] "hV" foo_table None
               {| instances := [{| key := "np"; values := ["4"] |}];
                  tail := Some ["old"] |}
               "help.txt" boot).
Proof.
  apply (callback_does_not_steer (E := reference)).
Defined.

(** ** The help option *)

Lemma strip_dashes_dashes n w :
  first_char w <> "-"%char -> strip_dashes (dashes n ++ w) = w.
Proof.
  intros Hw. induction n as [|n IH]; simpl.
  - destruct w as [|c w]; [reflexivity|]. simpl in *.
    destruct (Ascii.eqb_spec c "-"); [contradiction | reflexivity].
  - exact IH.
Qed.

(** X7.  Whenever the scanner reports the code of [h], the pass ends the
    run with [PRTE_ERR_SILENT]: nothing is stored, the results stay as they
    were, the scanner is not called again and one text at most is printed.
    With an argument attached to [-h] the text is the error topic
    [unrecognized-option] naming the argument; with no argument and no
    token left it is the [usage] topic of the help file.  (The token after
    [-h] is read at [argv[optind]], which has to lie inside the vector or
    on its terminator.) *)
Theorem help_option_always_exits {E : Externals} :
  forall myoptions helpfile shorts mystore argc fuel st,
  let r := getopt_long argc (argv st) shorts myoptions (scanner st) in
  ret r = char_to_int "h" ->
  (optarg (ret_state r) = None ->
   exists next, argv_at (ret_argv r) (optind (ret_state r)) = Ok next) ->
  exists fin,
    parse_loop shorts myoptions mystore helpfile argc (S fuel) st
    = Ok (PRTE_ERR_SILENT, fin) /\
    results fin = results st /\
    scanner fin = ret_state r /\
    (trace fin = trace st \/ exists s, trace fin = (trace st ++ [Printf s])%list)
    /\
    (forall a,
       optarg (ret_state r) = Some a ->
       trace fin
       = (trace st ++
          print_help "help-cli.txt" "unrecognized-option" true
            [Some prte_tool_basename; Some a])%list) /\
    (optarg (ret_state r) = None ->
     argv_at (ret_argv r) (optind (ret_state r)) = Ok None ->
     trace fin
     = (trace st ++
        print_help helpfile "usage" false
          [Some prte_tool_basename; Some "PRRTE";
           Some PRTE_PROXY_VERSION_STRING; Some prte_tool_basename;
           Some PRTE_PROXY_BUGREPORT])%list).
Proof.
  intros myoptions helpfile shorts mystore argc fuel st r Hr Hnext.
  assert (Hd : exists file topic err args,
            dispatch shorts myoptions mystore helpfile (optind (scanner st))
              (ret r) (scanned r st)
            = Ok (help_exit file topic err args (scanned r st)) /\
            (forall a, optarg (ret_state r) = Some a ->
               print_help file topic err args
               = print_help "help-cli.txt" "unrecognized-option" true
                   [Some prte_tool_basename; Some a]) /\
            (optarg (ret_state r) = None ->
             argv_at (ret_argv r) (optind (ret_state r)) = Ok None ->
             print_help file topic err args
             = print_help helpfile "usage" false
                 [Some prte_tool_basename; Some "PRRTE";
                  Some PRTE_PROXY_VERSION_STRING; Some prte_tool_basename;
                  Some PRTE_PROXY_BUGREPORT])).
  { rewrite Hr. unfold dispatch, case_h. cbn [scanned scanner argv].
    change (char_to_int "h" =? 0) with false.
    rewrite Z.eqb_refl. cbv iota.
    destruct (optarg (ret_state r)) as [a|] eqn:Ha.
    - do 4 eexists. split; [reflexivity|]. split.
      + intros a' Ha'. inversion Ha'. reflexivity.
      + discriminate.
    - destruct (Hnext eq_refl) as [next Hn]. rewrite Hn. cbn [bind].
      destruct next as [tok|].
      + repeat break_match_goal;
          (do 4 eexists; split; [reflexivity|]; split;
           [discriminate | intros _ H; discriminate H]).
      + do 4 eexists. split; [reflexivity|]. split; [discriminate|].
        reflexivity. }
  destruct Hd as (file & topic & err & args & Hd & Ha & Hu).
  eexists. split.
  - apply loop_return; [fold r; rewrite Hr; discriminate | exact Hd].
  - cbn [help_exit emit results scanner trace scanned].
    split; [reflexivity|]. split; [reflexivity|]. split; [|split].
    + destruct (print_help_one file topic err args) as [->|[s ->]].
      * left. apply app_nil_r.
      * right. now exists s.
    + intros a H. now rewrite (Ha a H).
    + intros H1 H2. now rewrite (Hu H1 H2).
Qed.

Lemma help_option_witness :
  (exists fin,
     parse_loop (E := reference) "h::V" foo_table check_store "help.txt" 2 1
       (entry (E := reference) ["prog"; "-hfoo"] ocon boot)
     = Ok (PRTE_ERR_SILENT, fin) /\
     results fin = ocon /\
     trace fin = [Printf "[help-cli.txt:unrecognized-option]"]) /\
  (exists fin,
     parse_loop (E := reference) "hV" foo_table check_store "help.txt" 2 1
       (entry (E := reference) ["prog"; "-h"] ocon boot)
     = Ok (PRTE_ERR_SILENT, fin) /\
     results fin = ocon /\
     trace fin = [Printf "[help.txt:usage]"]).
Proof.
  split.
  - destruct (help_option_always_exits (E := reference) foo_table "help.txt"
                "h::V" check_store 2 0%nat
                (entry (E := reference) ["prog"; "-hfoo"] ocon boot))
      as (fin & Hrun & Hres & _ & _ & Ha & _).
    + reflexivity.
    + intros H. discriminate H.
    + exists fin. split; [exact Hrun|]. split; [exact Hres|].
      rewrite (Ha "foo" eq_refl). reflexivity.
  - destruct (help_option_always_exits (E := reference) foo_table "help.txt"
                "hV" check_store 2 0%nat
                (entry (E := reference) ["prog"; "-h"] ocon boot))
      as (fin & Hrun & Hres & _ & _ & _ & Hu).
    + reflexivity.
    + intros _. eexists. reflexivity.
    + exists fin. split; [exact Hrun|]. split; [exact Hres|].
      rewrite (Hu eq_refl eq_refl). reflexivity.
Defined.

Lemma existsb_name_In w (myoptions : list option_t) :
  existsb (fun o => String.eqb w (name o)) myoptions = true <->
  In w (map name myoptions).
Proof.
  rewrite existsb_exists, in_map_iff. split.
  - intros (o & Ho & Heq). apply String.eqb_eq in Heq. now exists o.
  - intros (o & Heq & Ho). exists o. split; [assumption|].
    now apply String.eqb_eq.
Qed.

(** X8.  The topic [-h] prints is chosen from the token that follows it
    with every leading dash removed, so that [-h foo], [-h -foo] and
    [-h --foo] ask for the same.  The words [version] and [V], [verbose]
    and [v], [help] and [h] select the topics of [help-cli.txt] and come
    first, also when the option table has an entry of that name; another
    word that is the name of a table entry selects the topic of that name
    in the help file; any other word gets the error topic
    [unknown-option].  Each ends the run with [PRTE_ERR_SILENT]. *)
Theorem help_option_topic {E : Externals} :
  forall myoptions helpfile shorts mystore argc fuel st n w,
  let r := getopt_long argc (argv st) shorts myoptions (scanner st) in
  let reserved := ["version"; "V"; "verbose"; "v"; "help"; "h"] in
  let exits evs :=
    parse_loop shorts myoptions mystore helpfile argc (S fuel) st
    = Ok (PRTE_ERR_SILENT, emit evs (scanned r st)) in
  ret r = char_to_int "h" ->
  optarg (ret_state r) = None ->
  argv_at (ret_argv r) (optind (ret_state r))
  = Ok (Some (dashes n ++ w)%string) ->
  first_char w <> "-"%char ->
  (In w ["version"; "V"] ->
   exits (print_help "help-cli.txt" "version" false [])) /\
  (In w ["verbose"; "v"] ->
   exits (print_help "help-cli.txt" "verbose" false [])) /\
  (In w ["help"; "h"] ->
   exits (print_help "help-cli.txt" "help" false
            (repeat (Some prte_tool_basename) 8))) /\
  (~ In w reserved -> In w (map name myoptions) ->
   exits (print_help helpfile w false [])) /\
  (~ In w reserved -> ~ In w (map name myoptions) ->
   exits (print_help "help-cli.txt" "unknown-option" true
            [Some w; Some prte_tool_basename])).
Proof.
  intros myoptions helpfile shorts mystore argc fuel st n w r reserved exits
    Hr Ha Hn Hw.
  assert (Hd : dispatch shorts myoptions mystore helpfile
                 (optind (scanner st)) (ret r) (scanned r st)
               = case_h myoptions helpfile (scanned r st)).
  { rewrite Hr. unfold dispatch.
    change (char_to_int "h" =? 0) with false. now rewrite Z.eqb_refl. }
  assert (Hc : case_h myoptions helpfile (scanned r st)
    = let st1 := scanned r st in
      if String.eqb w "version" || String.eqb w "V"
      then Ok (help_exit "help-cli.txt" "version" false [] st1)
      else if String.eqb w "verbose" || String.eqb w "v"
      then Ok (help_exit "help-cli.txt" "verbose" false [] st1)
      else if String.eqb w "help" || String.eqb w "h"
      then Ok (help_exit "help-cli.txt" "help" false
                 (repeat (Some prte_tool_basename) 8) st1)
      else if existsb (fun o => String.eqb w (name o)) myoptions
      then Ok (help_exit helpfile w false [] st1)
      else Ok (help_exit "help-cli.txt" "unknown-option" true
                 [Some w; Some prte_tool_basename] st1)).
  { unfold case_h. cbn [scanned scanner argv]. rewrite Ha, Hn.
    cbn [bind]. rewrite strip_dashes_dashes by exact Hw. reflexivity. }
  assert (Hexit : forall file topic err args,
            case_h myoptions helpfile (scanned r st)
            = Ok (help_exit file topic err args (scanned r st)) ->
            exits (print_help file topic err args)).
  { intros file topic err args H. unfold exits.
    apply loop_return; [fold r; rewrite Hr; discriminate|].
    fold r. rewrite Hd. exact H. }
  assert (Hres : ~ In w reserved ->
            (String.eqb w "version" || String.eqb w "V") = false /\
            (String.eqb w "verbose" || String.eqb w "v") = false /\
            (String.eqb w "help" || String.eqb w "h") = false).
  { intros Hnot. unfold reserved in Hnot. simpl in Hnot.
    repeat split; apply orb_false_iff; split; apply String.eqb_neq;
      intros ->; tauto. }
  cbv zeta in Hc.
  split; [|split; [|split; [|split]]].
  - intros Hin. apply Hexit. rewrite Hc.
    destruct Hin as [<-|[<-|[]]]; reflexivity.
  - intros Hin. apply Hexit. rewrite Hc.
    destruct Hin as [<-|[<-|[]]]; reflexivity.
  - intros Hin. apply Hexit. rewrite Hc.
    destruct Hin as [<-|[<-|[]]]; reflexivity.
  - intros Hnot Hin. apply Hexit. rewrite Hc.
    destruct (Hres Hnot) as (-> & -> & ->).
    apply existsb_name_In in Hin. now rewrite Hin.
  - intros Hnot Hout. apply Hexit. rewrite Hc.
    destruct (Hres Hnot) as (-> & -> & ->).
    destruct (existsb (fun o => String.eqb w (name o)) myoptions) eqn:He;
      [|reflexivity].
    apply existsb_name_In in He. contradiction.
Qed.

Lemma help_option_topic_witness :
  parse_loop (E := reference) "hV" version_table check_store "help.txt" 3 1
    (entry (E := reference) ["prog"; "-h"; "---foo"] ocon boot)
  = Ok (PRTE_ERR_SILENT,
        emit (E := reference) [Printf "[help.txt:foo]"]
          (scanned (first_scan (E := reference) ["prog"; "-h"; "---foo"]
                      "hV" version_table boot)
             (entry (E := reference) ["prog"; "-h"; "---foo"] ocon boot)))
  /\
  parse_loop (E := reference) "hV" version_table check_store "help.txt" 3 1
    (entry (E := reference) ["prog"; "-h"; "--version"] ocon boot)
  = Ok (PRTE_ERR_SILENT,
        emit (E := reference) [Printf "[help-cli.txt:version]"]
          (scanned (first_scan (E := reference) ["prog"; "-h"; "--version"]
                      "hV" version_table boot)
             (entry (E := reference) ["prog"; "-h"; "--version"] ocon
                boot))).
Proof.
  split.
  - refine (proj1 (proj2 (proj2 (proj2
              (help_option_topic (E := reference) version_table "help.txt"
                 "hV" check_store 3 0%nat
                 (entry (E := reference) ["prog"; "-h"; "---foo"] ocon boot)
                 3%nat "foo" _ _ _ _)))) _ _);
      try reflexivity; try discriminate.
    + simpl. intuition discriminate.
    + simpl. tauto.
  - refine (proj1 (help_option_topic (E := reference) version_table
                     "help.txt" "hV" check_store 3 0%nat
                     (entry (E := reference) ["prog"; "-h"; "--version"]
                        ocon boot)
                     2%nat "version" _ _ _ _) _);
      try reflexivity; try discriminate.
    simpl. tauto.
Defined.

(** ** The default case *)

(** X9.  The two diagnostics of the default case.  A code that [shorts]
    does not list ends the run with the error topic [unregistered-option];
    a code that [shorts] lists but no table entry carries ends it with the
    error topic [short-no-long].  Both name the token at [optind - 1],
    return [PRTE_ERR_SILENT] and store nothing. *)
Theorem default_case_diagnostics {E : Externals} :
  forall myoptions helpfile shorts mystore argc fuel st code tok,
  let r := getopt_long argc (argv st) shorts myoptions (scanner st) in
  let exits evs :=
    parse_loop shorts myoptions mystore helpfile argc (S fuel) st
    = Ok (PRTE_ERR_SILENT, emit evs (scanned r st)) in
  ret r = code ->
  default_code code ->
  at_option (ret_argv r) (optind (scanner st)) ->
  argv_at (ret_argv r) (optind (ret_state r) - 1) = Ok tok ->
  (find_short code shorts = None ->
   exits (print_help "help-cli.txt" "unregistered-option" true
            [Some prte_tool_basename; tok; Some prte_tool_basename])) /\
  (forall after ptr,
     find_short code shorts = Some after ->
     short_argument after (scanned r st) = Ok ptr ->
     find_val code myoptions = None ->
     exits (print_help "help-cli.txt" "short-no-long" true
              [Some prte_tool_basename; tok])).
Proof.
  intros myoptions helpfile shorts mystore argc fuel st code tok r exits
    Hr (H1 & H0 & Hh & HV) Hat Htok.
  assert (Hd : dispatch shorts myoptions mystore helpfile
                 (optind (scanner st)) (ret r) (scanned r st)
               = case_default shorts myoptions mystore helpfile
                   (optind (scanner st)) code (scanned r st)).
  { rewrite Hr. unfold dispatch. apply Z.eqb_neq in H0, Hh, HV.
    now rewrite H0, Hh, HV. }
  assert (Hskip :
    (if optind (scanner st) =? 0 then Ok false
     else do t <- argv_str (argv (scanned r st)) (optind (scanner st));
          Ok (negb (Ascii.eqb (first_char t) "-"))) = Ok false).
  { destruct Hat as [->|(t & Ht & Hc)]; [reflexivity|].
    destruct (optind (scanner st) =? 0); [reflexivity|].
    cbn [argv scanned]. rewrite Ht. cbn [bind]. now rewrite Hc. }
  split.
  - intros Hs. unfold exits.
    apply loop_return; [fold r; now rewrite Hr|]. fold r. rewrite Hd.
    unfold case_default. rewrite Hskip. cbn [bind]. rewrite Hs.
    cbn [argv scanner scanned]. rewrite Htok. reflexivity.
  - intros after ptr Hs Hp Hv. unfold exits.
    apply loop_return; [fold r; now rewrite Hr|]. fold r. rewrite Hd.
    unfold case_default. rewrite Hskip. cbn [bind]. rewrite Hs, Hp.
    cbn [bind]. rewrite Hv.
    cbn [argv scanner scanned]. rewrite Htok. reflexivity.
Qed.

Lemma default_case_witness :
  parse_loop (E := reference) "hV" foo_table check_store "help.txt" 2 1
    (entry (E := reference) ["prog"; "-q"] ocon boot)
  = Ok (PRTE_ERR_SILENT,
        emit (E := reference) [Printf "[help-cli.txt:unregistered-option]"]
          (scanned (first_scan (E := reference) ["prog"; "-q"] "hV"
                      foo_table boot)
             (entry (E := reference) ["prog"; "-q"] ocon boot)))
  /\
  parse_loop (E := reference) "hVq" foo_table check_store "help.txt" 2 1
    (entry (E := reference) ["prog"; "-q"] ocon boot)
  = Ok (PRTE_ERR_SILENT,
        emit (E := reference) [Printf "[help-cli.txt:short-no-long]"]
          (scanned (first_scan (E := reference) ["prog"; "-q"] "hVq"
                      foo_table boot)
             (entry (E := reference) ["prog"; "-q"] ocon boot))).
Proof.
  split.
  - refine (proj1 (default_case_diagnostics (E := reference) foo_table
                     "help.txt" "hV" check_store 2 0%nat
                     (entry (E := reference) ["prog"; "-q"] ocon boot)
                     (char_to_int "?") (Some "-q") _ _ _ _) _);
      try reflexivity; [repeat split; discriminate | now left].
  - refine (proj2 (default_case_diagnostics (E := reference) foo_table
                     "help.txt" "hVq" check_store 2 0%nat
                     (entry (E := reference) ["prog"; "-q"] ocon boot)
                     (char_to_int "q") (Some "-q") _ _ _ _)
              EmptyString None _ _ _);
      try reflexivity; [repeat split; discriminate | now left].
Defined.

(** X10.  The guard of the default case.  When the scan began at a
    position other than the head of the vector and the token there does
    not begin with a dash, the code the scanner reports is passed over:
    nothing is stored, nothing is printed and the loop goes on, although
    the scanner has consumed the option and its argument.  So with a
    scanner that skips positional arguments, on [prog -x a pos -x b] the
    second [-x] is lost: the run succeeds with the one value [a] and the
    tail [pos]. *)
Theorem option_after_positional_is_passed_over {E : Externals} :
  forall myoptions helpfile,
  (forall shorts mystore argc fuel st code tok,
     let r := getopt_long argc (argv st) shorts myoptions (scanner st) in
     ret r = code ->
     default_code code ->
     optind (scanner st) <> 0 ->
     argv_str (ret_argv r) (optind (scanner st)) = Ok tok ->
     first_char tok <> "-"%char ->
     parse_loop shorts myoptions mystore helpfile argc (S fuel) st
     = parse_loop shorts myoptions mystore helpfile argc fuel
         (scanned r st)) /\
  (forall storefn results0 g o a b pos fuel,
     let pargv := ["prog"; "-x"; a; pos; "-x"; b] in
     let moved := ["prog"; "-x"; a; "-x"; b; pos] in
     pmix_argv_copy_strip pargv = pargv ->
     find_val (char_to_int "x") myoptions = Some o ->
     has_arg o = PRTE_ARG_REQD ->
     short_help_directive a = false ->
     first_char pos <> "-"%char ->
     let r1 := first_scan pargv "x:" myoptions g in
     short_match r1 (char_to_int "x") (Some a) 3 pargv ->
     let r2 := next_scan 6 pargv "x:" myoptions (ret_state r1) in
     short_match r2 (char_to_int "x") (Some b) 6 pargv ->
     exhausted (next_scan 6 pargv "x:" myoptions (ret_state r2)) 5 moved ->
     observe (prte_cmd_line_parse (S (S (S fuel))) pargv "x:" myoptions
                storefn results0 helpfile g)
     = Ok (PRTE_SUCCESS,
           {| instances :=
                instances (mystore_of storefn (name o) (Some a) results0);
              tail := Some [pos] |},
           [Store (name o) (Some a); AssignTail [pos]],
           5)).
Proof.
  intros myoptions helpfile.
  assert (Hstep : forall shorts mystore argc fuel st code tok,
     ret (getopt_long argc (argv st) shorts myoptions (scanner st)) = code ->
     default_code code ->
     optind (scanner st) <> 0 ->
     argv_str (ret_argv (getopt_long argc (argv st) shorts myoptions
                           (scanner st))) (optind (scanner st)) = Ok tok ->
     first_char tok <> "-"%char ->
     parse_loop shorts myoptions mystore helpfile argc (S fuel) st
     = parse_loop shorts myoptions mystore helpfile argc fuel
         (scanned (getopt_long argc (argv st) shorts myoptions (scanner st))
            st)).
  { intros shorts mystore argc fuel st code tok Hr (H1 & H0 & Hh & HV)
      Hne Htok Hc.
    apply loop_break; [now rewrite Hr|]. rewrite Hr.
    unfold dispatch. apply Z.eqb_neq in H0, Hh, HV, Hne.
    rewrite H0, Hh, HV. unfold case_default. rewrite Hne.
    cbn [argv scanned]. rewrite Htok. cbn [bind].
    destruct (Ascii.eqb_spec (first_char tok) "-"); [contradiction|].
    reflexivity. }
  split.
  - intros shorts mystore argc fuel st code tok r. apply Hstep.
  - intros storefn results0 g o a b pos fuel pargv moved Hq Hf Hn Ha Hpos
      r1 Hm1 r2 Hm2 Hx.
    rewrite parse_entry by exact Hq.
    pose proof Hm1 as (Hr1 & Ha1 & Hi1 & Hv1).
    rewrite loop_short_store with (code := char_to_int "x")
      (after := ":") (ptr := Some a) (o := o);
      try assumption; try reflexivity; try discriminate;
      [ | now left
        | unfold short_argument; cbn [scanner scanned]; apply f_equal;
          exact Ha1 ].
    match goal with
    | |- observe (parse_loop _ _ _ _ _ _ ?s) = _ => set (st2 := s)
    end.
    assert (Hs2 : getopt_long (pmix_argv_count pargv) (argv st2) "x:"
                    myoptions (scanner st2) = r2).
    { unfold st2, r2, next_scan, r1, first_scan in *. simpl. rewrite Hv1.
      reflexivity. }
    pose proof Hm2 as (Hr2 & Ha2 & Hi2 & Hv2).
    rewrite Hstep with (code := char_to_int "x") (tok := pos);
      [ | now rewrite Hs2 | repeat split; discriminate
        | change (optind (ret_state r1) <> 0); rewrite Hi1; discriminate
        | rewrite Hs2, Hv2;
          change (optind (scanner st2)) with (optind (ret_state r1));
          rewrite Hi1; reflexivity
        | exact Hpos ].
    rewrite Hs2.
    match goal with
    | |- observe (parse_loop _ _ _ _ _ _ ?s) = _ => set (st3 := s)
    end.
    destruct Hx as (Hr3 & Hi3 & Hv3).
    assert (Hs3 : getopt_long (pmix_argv_count pargv) (argv st3) "x:"
                    myoptions (scanner st3)
                  = next_scan 6 pargv "x:" myoptions (ret_state r2)).
    { unfold st3, next_scan. simpl. rewrite Hv2. reflexivity. }
    rewrite loop_exhausted by (rewrite Hs3; exact Hr3).
    rewrite Hs3. unfold finish, observe, next_scan in *. simpl.
    rewrite Hi3, Hv3. simpl. rewrite ?Hi3, ?Hv3, Hn. reflexivity.
Qed.

Lemma option_after_positional_witness :
  observe (prte_cmd_line_parse (E := reference) 3
             ["prog"; "-x"; "1"; "pos"; "-x"; "2"] "x:" xopt_table None
             ocon "help.txt" boot)
  = Ok (PRTE_SUCCESS,
        {| instances := [{| key := "xopt"; values := ["1"] |}];
           tail := Some ["pos"] |},
        [Store "xopt" (Some "1"); AssignTail ["pos"]],
        5).
Proof.
  refine (proj2 (option_after_positional_is_passed_over (E := reference)
                   xopt_table "help.txt")
            None ocon boot
            {| name := "xopt"; has_arg := PRTE_ARG_REQD; flag := None;
               val := char_to_int "x" |}
            "1" "2" "pos" 0%nat _ _ _ _ _ _ _ _);
    try reflexivity; try discriminate; repeat split.
Defined.

(** X11.  Short options that take no argument.  A code that [shorts]
    lists without a colon after it is stored with no value, whatever
    argument the scanner reports; so is a code whose table entry has
    [has_arg = PRTE_ARG_NONE], provided the text found for it is not a help
    directive (the directive is tested before the arity).  In both cases
    the loop goes on. *)
Theorem short_flag_stores_no_value {E : Externals} :
  forall myoptions helpfile shorts mystore argc fuel st code o,
  let r := getopt_long argc (argv st) shorts myoptions (scanner st) in
  let goes_on :=
    parse_loop shorts myoptions mystore helpfile argc (S fuel) st
    = parse_loop shorts myoptions mystore helpfile argc fuel
        (call_store mystore (name o) None (scanned r st)) in
  ret r = code ->
  default_code code ->
  at_option (ret_argv r) (optind (scanner st)) ->
  find_val code myoptions = Some o ->
  (forall after,
     find_short code shorts = Some after ->
     first_char after <> ":"%char ->
     goes_on) /\
  (forall after ptr,
     find_short code shorts = Some after ->
     short_argument after (scanned r st) = Ok ptr ->
     has_arg o = PRTE_ARG_NONE ->
     is_short_help ptr = false ->
     goes_on) /\
  (forall after ptr,
     find_short code shorts = Some after ->
     short_argument after (scanned r st) = Ok ptr ->
     has_arg o = PRTE_ARG_NONE ->
     is_short_help ptr = true ->
     parse_loop shorts myoptions mystore helpfile argc (S fuel) st
     = Ok (PRTE_ERR_SILENT,
           emit (print_help helpfile (name o) true []) (scanned r st))).
Proof.
  intros myoptions helpfile shorts mystore argc fuel st code o r goes_on
    Hr (H1 & H0 & Hh & HV) Hat Hv.
  split; [|split].
  - intros after Hs Hc. unfold goes_on.
    rewrite loop_short_store with (code := code) (after := after)
      (ptr := None) (o := o); try assumption; try reflexivity.
    + fold r. now destruct (has_arg o =? PRTE_ARG_NONE).
    + unfold short_argument.
      destruct after as [|c after]; [reflexivity|].
      destruct (Ascii.eqb_spec c ":") as [->|Hne]; [now elim Hc|].
      destruct c as [[] [] [] [] [] [] [] []]; try reflexivity.
      now elim Hne.
  - intros after ptr Hs Hp Hn Hq. unfold goes_on.
    rewrite loop_short_store with (code := code) (after := after)
      (ptr := ptr) (o := o); try assumption.
    fold r. now rewrite Hn.
  - intros after ptr Hs Hp Hn Hq.
    apply loop_short_help with (code := code) (after := after)
      (ptr := ptr); assumption.
Qed.

Lemma short_flag_witness :
  parse_loop (E := reference) "hVv" verbose_table check_store "help.txt" 2 2
    (entry (E := reference) ["prog"; "-v"] ocon boot)
  = parse_loop (E := reference) "hVv" verbose_table check_store "help.txt"
      2 1
      (call_store check_store "verbose" None
         (scanned (first_scan (E := reference) ["prog"; "-v"] "hVv"
                     verbose_table boot)
            (entry (E := reference) ["prog"; "-v"] ocon boot))).
Proof.
  refine (proj1 (short_flag_stores_no_value (E := reference) verbose_table
                   "help.txt" "hVv" check_store 2 1%nat
                   (entry (E := reference) ["prog"; "-v"] ocon boot)
                   (char_to_int "v")
                   {| name := "verbose"; has_arg := PRTE_ARG_NONE;
                      flag := None; val := char_to_int "v" |} _ _ _ _)
            EmptyString _ _);
    try reflexivity;
    [repeat split; discriminate | now left | discriminate].
Defined.

(** ** Reads of the argument vector *)

Lemma argv_at_cases (av : list string) (i : Z) :
  argv_at av i = Undef \/ exists p, argv_at av i = Ok p.
Proof.
  unfold argv_at. destruct (i <? 0); [now left|].
  destruct (nth_error av (Z.to_nat i)); [right; now eexists|].
  destruct (i =? Z.of_nat (List.length av)); [right; now eexists|now left].
Qed.

(** X12.  The MCA branch formats [argv[optind]] with [%s] without testing
    it.  When the option whose name ends in [mca] is reported with the
    cursor at the end of the vector, that element is the terminating NULL
    and a NULL pointer is handed to the [%s] conversion: the run has no
    defined result, whatever the callback and the results are.  With a
    scanner that takes the token after the option as its argument, this is
    what happens on [prog --myplugin_mca key]. *)
Theorem mca_option_at_the_end_is_undefined {E : Externals} :
  forall myoptions helpfile shorts mystore argc fuel st idx o arg next av,
  let r := getopt_long argc (argv st) shorts myoptions (scanner st) in
  long_match r idx arg next av ->
  option_at myoptions idx = Ok o ->
  is_long_help arg = false ->
  endswith (Some (name o)) (Some "mca") = PRTE_SUCCESS ->
  argv_at av next = Ok None ->
  parse_loop shorts myoptions mystore helpfile argc (S fuel) st = Undef.
Proof.
  intros myoptions helpfile shorts mystore argc fuel st idx o arg next av r
    (Hr & Hl & Ha & Hi & Hv) Ho Hh He Hend.
  rewrite parse_loop_unfold. cbv zeta. fold r. rewrite Hr.
  change (0 =? -1) with false. cbv iota.
  unfold dispatch, case_long. rewrite Z.eqb_refl.
  cbn [option_index scanned scanner argv]. rewrite Hl, Ho. cbn [bind].
  rewrite Ha, Hh, He. cbn [status_eqb]. rewrite Hi, Hv.
  unfold argv_str. rewrite Hend.
  destruct (argv_at_cases av (next - 1)) as [->|([a|] & ->)]; reflexivity.
Qed.

Lemma mca_option_at_the_end_witness :
  prte_cmd_line_parse (E := reference) 2 ["prog"; "--myplugin_mca"; "key"]
    "hV" myplugin_table None ocon "help.txt" boot
  = Undef.
Proof.
  rewrite parse_entry by reflexivity.
  refine (mca_option_at_the_end_is_undefined (E := reference)
            myplugin_table "help.txt" "hV" check_store 3 1%nat
            (entry (E := reference) ["prog"; "--myplugin_mca"; "key"] ocon
               boot)
            0 {| name := "myplugin_mca"; has_arg := PRTE_ARG_REQD;
                 flag := None; val := 0 |}
            (Some "key") 3 ["prog"; "--myplugin_mca"; "key"] _ _ _ _ _);
    try reflexivity.
  repeat split.
Defined.

Lemma argv_at_inside (av : list string) (i : Z) :
  0 <= i < Z.of_nat (List.length av) ->
  exists s, argv_at av i = Ok (Some s).
Proof.
  intros [H0 H1]. unfold argv_at.
  destruct (Z.ltb_spec i 0) as [|_]; [lia|].
  destruct (nth_error av (Z.to_nat i)) as [s|] eqn:Hn; [now exists s|].
  apply nth_error_None in Hn. lia.
Qed.

Lemma argv_at_defined (av : list string) (i : Z) :
  0 <= i <= Z.of_nat (List.length av) ->
  exists p, argv_at av i = Ok p.
Proof.
  intros [H0 H1]. unfold argv_at.
  destruct (Z.ltb_spec i 0) as [|_]; [lia|].
  destruct (nth_error av (Z.to_nat i)) as [s|] eqn:Hn; [now eexists|].
  apply nth_error_None in Hn.
  assert (i = Z.of_nat (List.length av)) as -> by lia.
  rewrite Z.eqb_refl. now eexists.
Qed.

Lemma skip2_defined (s : string) :
  (2 <= String.length s)%nat -> exists rest, skip2 s = Ok rest.
Proof.
  destruct s as [|a [|b rest]]; cbn; intros H; try lia. now exists rest.
Qed.

(** X13.  The reads of one pass through the [switch] stay inside the
    vector and the table under the contract of [getopt_long].  If the
    cursor the scanner leaves is between 1 and the length of the vector,
    the position the scan began at is inside the vector, a code [0] comes
    with the index of a table entry, the option whose name ends in [mca]
    is followed by a token, and the token of a code declared with two
    colons has the two characters the code steps over, then the pass has
    a defined outcome: it breaks or returns. *)
Theorem switch_reads_stay_in_bounds {E : Externals} :
  forall shorts myoptions mystore helpfile argind opt st,
  1 <= optind (scanner st) <= Z.of_nat (List.length (argv st)) ->
  0 <= argind < Z.of_nat (List.length (argv st)) ->
  (opt = 0 ->
   exists o,
     option_at myoptions (option_index st) = Ok o /\
     (endswith (Some (name o)) (Some "mca") = PRTE_SUCCESS ->
      is_long_help (optarg (scanner st)) = false ->
      optind (scanner st) < Z.of_nat (List.length (argv st)))) ->
  (forall rest tok,
     find_short opt shorts = Some (String ":" (String ":" rest)) ->
     argv_str (argv st) (optind (scanner st) - 1) = Ok tok ->
     (2 <= String.length tok)%nat) ->
  exists f,
    dispatch shorts myoptions mystore helpfile argind opt st = Ok f.
Proof.
  intros shorts myoptions mystore helpfile argind opt st Hind Harg Hlong
    Hcolons.
  destruct (argv_at_inside (argv st) (optind (scanner st) - 1))
    as (prev & Hprev); [lia|].
  destruct (argv_at_defined (argv st) (optind (scanner st)))
    as (next & Hnext); [lia|].
  destruct (argv_at_inside (argv st) argind) as (first & Hfirst);
    [exact Harg|].
  unfold dispatch.
  destruct (Z.eqb_spec opt 0) as [H0|H0].
  - destruct (Hlong H0) as (o & Ho & Hmca).
    unfold case_long. rewrite Ho. cbn [bind].
    destruct (is_long_help (optarg (scanner st))) eqn:Hh; [now eexists|].
    destruct (endswith (Some (name o)) (Some "mca")) eqn:He;
      cbn [status_eqb]; try now eexists.
    destruct (argv_at_inside (argv st) (optind (scanner st)))
      as (b & Hb); [specialize (Hmca eq_refl eq_refl); lia|].
    unfold argv_str. rewrite Hprev. cbn [bind]. rewrite Hb. cbn [bind].
    now eexists.
  - destruct (opt =? char_to_int "h").
    + unfold case_h. destruct (optarg (scanner st)); [now eexists|].
      rewrite Hnext. cbn [bind]. destruct next as [tok|]; [|now eexists].
      repeat break_match_goal; now eexists.
    + destruct (opt =? char_to_int "V"); [unfold case_V; now eexists|].
      unfold case_default, argv_str. rewrite Hfirst, Hprev.
      destruct (argind =? 0); cbn [bind].
      all: try destruct (negb (Ascii.eqb (first_char first) "-"));
        try (now eexists).
      all: destruct (find_short opt shorts) as [after|] eqn:Hs;
        [|now eexists].
      all: assert (Hp : exists ptr,
                     short_argument after st = Ok ptr)
        by (unfold short_argument, argv_str; rewrite Hprev; cbn [bind];
            destruct after as [|c after]; [now eexists|];
            destruct (Ascii.eqb_spec c ":") as [->|Hne];
            [ destruct after as [|d after]; [now eexists|];
              destruct (Ascii.eqb_spec d ":") as [->|Hnd];
              [ destruct (skip2_defined prev) as (rest & Hrest);
                [ apply (Hcolons after prev); [reflexivity|];
                  unfold argv_str; now rewrite Hprev
                | rewrite Hrest; now eexists ]
              | destruct d as [[] [] [] [] [] [] [] []];
                try (now elim Hnd); now eexists ]
            | destruct c as [[] [] [] [] [] [] [] []];
              try (now elim Hne); now eexists ]).
      all: destruct Hp as (ptr & ->); cbn [bind].
      all: destruct (find_val opt myoptions) as [o|]; [|now eexists].
      all: destruct (is_short_help ptr); now eexists.
Qed.

Lemma switch_reads_witness :
  exists f,
    dispatch (E := reference) "z::" zed_table check_store "help.txt" 0
      (char_to_int "z")
      (scanned (first_scan (E := reference) ["prog"; "-zfoo"] "z::"
                  zed_table boot)
         (entry (E := reference) ["prog"; "-zfoo"] ocon boot))
    = Ok f.
Proof.
  apply (switch_reads_stay_in_bounds (E := reference)).
  - vm_compute. split; discriminate.
  - vm_compute. split; [discriminate | reflexivity].
  - discriminate.
  - intros rest tok _ H. vm_compute in H. injection H as <-.
    cbn. lia.
Defined.

(** ** What a run depends on *)

(** X14.  The parser works on the stripped copy of the caller's vector and
    resets [optind], [opterr], [optopt] and [optarg] before its first call
    of the scanner.  So a run depends on the vector only through its
    stripped copy, and on the scanner's globals at entry only through the
    scanner's private state: whatever the four globals hold when the
    function is entered, the status, the results, the output and the final
    cursor are the same. *)
Theorem run_ignores_globals_at_entry {E : Externals} :
  forall fuel pargv pargv' shorts myoptions storefn results0 helpfile g g',
  pmix_argv_copy_strip pargv = pmix_argv_copy_strip pargv' ->
  priv g = priv g' ->
  prte_cmd_line_parse fuel pargv shorts myoptions storefn results0
    helpfile g
  = prte_cmd_line_parse fuel pargv' shorts myoptions storefn results0
      helpfile g'.
Proof.
  intros fuel pargv pargv' shorts myoptions storefn results0 helpfile g g'
    Hv Hp.
  unfold prte_cmd_line_parse, reset. now rewrite Hv, Hp.
Qed.

Lemma run_ignores_globals_witness :
  prte_cmd_line_parse (E := reference) 2
    ["prog"; String dquote ("--foo" ++ String dquote EmptyString); "a"]
    "hV" foo_table None ocon "help.txt" boot
  = prte_cmd_line_parse (E := reference) 2 ["prog"; "--foo"; "a"]
      "hV" foo_table None ocon "help.txt"
      {| optind := 7; opterr := 1; optopt := 104; optarg := Some "stale";
         priv := Glibc.fresh |}.
Proof.
  apply (run_ignores_globals_at_entry (E := reference)); reflexivity.
Defined.
